(** * The LatentNeRF scene-optimisation controller

    A shallow embedding of [threestudio/systems/latentnerf.py]: the lazily
    constructed guidance model, the forward/render operation, the multi-term
    loss of [training_step], the lifecycle hooks, the images and files of
    validation and test, and the checkpoint filter.

    Conventions.
    - Python dictionaries with string keys are [gmap string _]; a missing key
      is the [KeyError] the subscript raises.
    - Tensors are a shape and the row-major list of their entries.  Entries
      are idealised as real numbers: rounding is not modelled.  The only
      non-finite values the step can produce from finite entries (a division
      by a zero count, a logarithm outside its domain) are kept apart as
      [NonFinite].
    - Methods that read or write [self] live in the monad [M] (state and
      exceptions); what happens to external collaborators is recorded in a
      trace of events. *)

From Stdlib Require Import Reals Lra Lia Ascii String.
From Stdlib Require Import Decimal DecimalFacts DecimalNat DecimalString.
From stdpp Require Import gmap strings list fin_maps.

(** ** The Python runtime: exceptions, results, [str.split] *)

Module Py.

Inductive exn : Type :=
  | ValueError (msg : string)
  | KeyError (key : string)
  | AttributeError (attr : string)
  | TypeError (msg : string)
  | IndexError (msg : string)
  | RuntimeError (msg : string).

Inductive result (A : Type) : Type :=
  | Ok (a : A)
  | Raise (e : exn).
Arguments Ok {A} a.
Arguments Raise {A} e.

Definition rbind {A B : Type} (r : result A) (k : A → result B) : result B :=
  match r with
  | Ok a => k a
  | Raise e => Raise e
  end.

(** Sequencing, for [result] and for the method monad below. *)
Class Bind (F : Type → Type) : Type :=
  bind : ∀ {A B : Type}, F A → (A → F B) → F B.

#[global] Instance result_bind : Bind result := @rbind.

Declare Scope py_scope.
Delimit Scope py_scope with py.
Notation "'let*' x ':=' m 'in' k" := (bind m (λ x, k))
  (at level 10, x name, m at level 100, k at level 200) : py_scope.
Notation "'do' m 'in' k" := (bind m (λ _, k))
  (at level 10, m at level 100, k at level 200) : py_scope.

Definition is_ok {A : Type} (r : result A) : Prop :=
  match r with Ok _ => True | Raise _ => False end.

(** [d[k]] on a dictionary. *)
Definition getitem {V : Type} (d : gmap string V) (k : string) : result V :=
  match d !! k with
  | Some v => Ok v
  | None => Raise (KeyError k)
  end.

(** [k in d]. *)
Definition contains {V : Type} (d : gmap string V) (k : string) : bool :=
  match d !! k with Some _ => true | None => false end.

(** [s.split(sep)] for a one-character separator: the segments between the
    occurrences of [sep], never an empty list. *)
Fixpoint split (sep : ascii) (s : string) : list string :=
  match s with
  | EmptyString => [EmptyString]
  | String c s' =>
      if Ascii.eqb c sep then EmptyString :: split sep s'
      else match split sep s' with
           | seg :: rest => String c seg :: rest
           | [] => [String c EmptyString]
           end
  end.

(** [x in l] for a list of strings. *)
Definition str_in (x : string) (l : list string) : bool :=
  existsb (String.eqb x) l.

End Py.

Export Py.
Open Scope py_scope.

(** ** Tensors *)

Module Torch.

#[global] Instance Rlt_decision : RelDecision Rlt := Rlt_dec.
#[global] Instance R_inhabited : Inhabited R := populate 0%R.

Record Tensor : Type := mkTensor { shape : list nat; data : list R }.

(** Scalar results (0-dimensional tensors and Python floats). *)
Inductive scalar : Type :=
  | Finite (x : R)
  | NonFinite.

Definition sadd (a b : scalar) : scalar :=
  match a, b with
  | Finite x, Finite y => Finite (x + y)
  | _, _ => NonFinite
  end.

Definition smul (a b : scalar) : scalar :=
  match a, b with
  | Finite x, Finite y => Finite (x * y)
  | _, _ => NonFinite
  end.

Definition numel (t : Tensor) : nat := length (data t).

Definition prod_shape (s : list nat) : nat := foldr Nat.mul 1 s.

Definition Rsum (l : list R) : R := foldr Rplus 0%R l.

(** [t.sum()]. *)
Definition sum (t : Tensor) : R := Rsum (data t).

(** [x / n] for a sum [x] and an integer count [n]: a zero count gives
    [inf] or [nan]. *)
Definition div_count (x : R) (n : nat) : scalar :=
  match n with
  | O => NonFinite
  | S _ => Finite (x / INR n)
  end.

(** [t.mean()]. *)
Definition mean (t : Tensor) : scalar := div_count (sum t) (numel t).

(** Pointwise operations with a Python number. *)
Definition pointwise (f : R → R) (t : Tensor) : Tensor :=
  mkTensor (shape t) (f <$> data t).

Definition detach (t : Tensor) : Tensor := t.
Definition clamp_min (lo : R) : Tensor → Tensor := pointwise (λ x, Rmax x lo).
Definition clamp (lo hi : R) : Tensor → Tensor :=
  pointwise (λ x, Rmin (Rmax x lo) hi).
Definition pow2 : Tensor → Tensor := pointwise (λ x, (x ^ 2)%R).
Definition add_const (c : R) : Tensor → Tensor := pointwise (λ x, (x + c)%R).
Definition tsqrt : Tensor → Tensor := pointwise sqrt.

(** [(t > 0).sum()]. *)
Definition count_pos (t : Tensor) : nat :=
  length (filter (λ x, (0 < x)%R) (data t)).

(** [a * b] on tensors of one shape.  Operands of different shapes go
    through broadcasting in torch, which no output of the renderer needs
    here: they are all reported as the shape error. *)
Definition mul (a b : Tensor) : result Tensor :=
  if decide (shape a = shape b)
  then Ok (mkTensor (shape a) (zip_with Rmult (data a) (data b)))
  else Raise (RuntimeError "shapes do not match").

(** [n] consecutive rows of [d] entries. *)
Fixpoint rows (d n : nat) (l : list R) : list (list R) :=
  match n with
  | O => []
  | S n' => take d l :: rows d n' (drop d l)
  end.

(** [torch.sum(t, -1, keepdim=True)]. *)
Definition sum_last (t : Tensor) : Tensor :=
  match reverse (shape t) with
  | [] => mkTensor [] [sum t]
  | d :: lead =>
      mkTensor (reverse lead ++ [1])
               (Rsum <$> rows d (prod_shape lead) (data t))
  end.

(** All multi-indices of a shape, in row-major order. *)
Fixpoint indices (s : list nat) : list (list nat) :=
  match s with
  | [] => [[]]
  | n :: s' => i ← seq 0 n; (λ ix, i :: ix) <$> indices s'
  end.

(** Row-major offset of a multi-index. *)
Definition offset (s ix : list nat) : nat :=
  foldl (λ acc ni, acc * ni.1 + ni.2) 0 (zip s ix).

(** Position of axis [j] in the axis list [dims]. *)
Fixpoint position (j : nat) (dims : list nat) : nat :=
  match dims with
  | [] => 0
  | d :: dims' => if decide (d = j) then 0 else S (position j dims')
  end.

(** [t.permute(dims...)]: entry [ix] of the result is entry [ix'] of [t] with
    [ix'[dims[k]] = ix[k]]. *)
Definition permute (dims : list nat) (t : Tensor) : result Tensor :=
  let rank := length (shape t) in
  if decide (dims ≡ₚ seq 0 rank) then
    let shape' := (λ d, shape t !!! d) <$> dims in
    let source ix := (λ j, ix !!! position j dims) <$> seq 0 rank in
    Ok (mkTensor shape'
          ((λ ix, data t !!! offset (shape t) (source ix)) <$> indices shape'))
  else Raise (RuntimeError "permute: dims do not match the tensor").

(** [t.shape[0]]. *)
Definition shape0 (t : Tensor) : result nat :=
  match shape t with
  | n :: _ => Ok n
  | [] => Raise (IndexError "tuple index out of range")
  end.

End Torch.

Export Torch.

(** ** Helpers of [threestudio.utils.ops] *)

Module Ops.

(** Modelled from the spec: [threestudio.utils.ops.dot] is not part of the
    sources at hand.  The spec calls it the dot product between normal and
    ray direction: the products of the entries summed along the last axis,
    which is kept with size 1 so that the result lines up with the
    per-sample weights. *)
Definition dot (x y : Tensor) : result Tensor :=
  let* p := mul x y in Ok (sum_last p).

Definition bce_entry (x t : R) : R :=
  (- (t * ln x + (1 - t) * ln (1 - x)))%R.

(** Modelled from the spec: [threestudio.utils.ops.binary_cross_entropy] is
    not part of the sources at hand.  The spec calls it the binary
    cross-entropy of its first argument against its second: the mean of
    [-(t * log x + (1 - t) * log (1 - x))].  An entry of the input outside
    the open unit interval puts a logarithm outside its domain. *)
Definition binary_cross_entropy (input target : Tensor) : result scalar :=
  if decide (shape input = shape target) then
    if decide (Forall (λ x, (0 < x)%R ∧ (x < 1)%R) (data input)) then
      Ok (mean (mkTensor (shape input)
                  (zip_with bce_entry (data input) (data target))))
    else Ok NonFinite
  else Raise (RuntimeError "shapes do not match").

End Ops.

Export Ops.

(** ** Tensor subscripts and number formatting *)

Module Subscript.

(** One position of a subscript: an integer or a full slice [:]. *)
Inductive Index : Type :=
  | At (i : nat)
  | All.

(** The shape of [t[idx...]]: an integer removes its axis, a slice keeps it,
    the axes past the subscript stay. *)
Fixpoint index_shape (idx : list Index) (s : list nat) : result (list nat) :=
  match idx, s with
  | [], _ => Ok s
  | _ :: _, [] => Raise (IndexError "too many indices for tensor")
  | At i :: idx', n :: s' =>
      if decide (i < n) then index_shape idx' s'
      else Raise (IndexError "index is out of bounds")
  | All :: idx', n :: s' =>
      let* r := index_shape idx' s' in Ok (n :: r)
  end.

(** The multi-index of [t] that a multi-index of [t[idx...]] reads. *)
Fixpoint index_source (idx : list Index) (rx : list nat) : list nat :=
  match idx with
  | [] => rx
  | At i :: idx' => i :: index_source idx' rx
  | All :: idx' =>
      match rx with
      | j :: rx' => j :: index_source idx' rx'
      | [] => []
      end
  end.

(** [t[idx...]]. *)
Definition tensor_getitem (idx : list Index) (t : Tensor) : result Tensor :=
  let* s' := index_shape idx (shape t) in
  Ok (mkTensor s'
        ((λ rx, data t !!! offset (shape t) (index_source idx rx))
           <$> indices s')).

(** [str(n)] for an integer that is not negative, as an f-string formats
    it. *)
Definition str_int (n : nat) : string :=
  NilEmpty.string_of_uint (Nat.to_uint n).

Definition is_digit (c : ascii) : bool :=
  (48 <=? nat_of_ascii c) && (nat_of_ascii c <=? 57).

Fixpoint all_digits (s : string) : bool :=
  match s with
  | EmptyString => true
  | String c s' => is_digit c && all_digits s'
  end.

End Subscript.

Export Subscript.

(** ** The system: configuration, state, external collaborators *)

Section LatentNeRF.

(** Opaque data of the external collaborators. *)
Context {Batch Embedding Opts Schedule Geometry Material Background : Type}.

(** The guidance model: callable, and with a latent decoder. *)
Record Guidance : Type := mkGuidance {
  call : Tensor → Embedding → bool → gmap string scalar;
  decode_latents : Tensor → Tensor
}.

Definition PromptProcessor : Type := Batch → Embedding.
Definition Renderer : Type := Batch → gmap string Tensor.
Definition ShapeLoss : Type := Tensor → Tensor → scalar.

(** [LatentNeRF.Config], with the [loss] record it inherits from
    [BaseSystem.Config] (names and schedules, in configuration order). *)
Record Config : Type := mkConfig {
  cfg_geometry_type : string;
  cfg_geometry : Opts;
  cfg_material_type : string;
  cfg_material : Opts;
  cfg_background_type : string;
  cfg_background : Opts;
  cfg_renderer_type : string;
  cfg_renderer : Opts;
  cfg_guidance_type : string;
  cfg_guidance : Opts;
  cfg_prompt_processor_type : string;
  cfg_prompt_processor : Opts;
  cfg_guide_shape : option string;
  cfg_refinement : bool;
  cfg_loss : list (string * Schedule)
}.

(** [threestudio.find(tag)(options, ...)]: the registry lookup followed by
    the construction, one entry per kind of component, and the [ShapeLoss]
    constructor of [threestudio.utils.ops]. *)
Record Registry : Type := mkRegistry {
  find_geometry : string → Opts → Geometry;
  find_material : string → Opts → Material;
  find_background : string → Opts → Background;
  find_renderer : string → Opts → Geometry → Material → Background → Renderer;
  find_guidance : string → Opts → Guidance;
  find_prompt_processor : string → Opts → PromptProcessor;
  new_ShapeLoss : string → ShapeLoss
}.

Variable threestudio : Registry.

(** [self.C(value)] of the base system: the value of a schedule at the
    current global step. *)
Variable C : nat → Schedule → R.

(** What the controller does to its collaborators and to the logger. *)
Inductive Event : Type :=
  | SetupGuidance
  | NewGuidance
  | NewPromptProcessor
  | Rendered
  | Encoded
  | GuidanceQueried
  | LatentsDecoded
  | ShapeLossEvaluated
  | Logged (name : string) (value : scalar).

(** The attributes of [self] after [configure].  [prompt_processor] and
    [shape_loss] are [None] while the attribute does not exist; [guidance]
    is [None] while the attribute holds Python's [None]. *)
Record System : Type := mkSystem {
  cfg : Config;
  geometry : Geometry;
  material : Material;
  background : Background;
  renderer : Renderer;
  guidance : option Guidance;
  prompt_processor : option PromptProcessor;
  shape_loss : option ShapeLoss;
  global_step : nat;
  trace : list Event
}.

Definition set_guidance (g : option Guidance) (s : System) : System :=
  mkSystem (cfg s) (geometry s) (material s) (background s) (renderer s)
           g (prompt_processor s) (shape_loss s) (global_step s) (trace s).

Definition set_prompt_processor (p : option PromptProcessor) (s : System)
  : System :=
  mkSystem (cfg s) (geometry s) (material s) (background s) (renderer s)
           (guidance s) p (shape_loss s) (global_step s) (trace s).

Definition record (e : Event) (s : System) : System :=
  mkSystem (cfg s) (geometry s) (material s) (background s) (renderer s)
           (guidance s) (prompt_processor s) (shape_loss s) (global_step s)
           (trace s ++ [e]).

(** *** Methods: state and exceptions *)

Definition M (A : Type) : Type := System → result A * System.

Definition ret {A : Type} (a : A) : M A := λ s, (Ok a, s).

Definition mbind {A B : Type} (m : M A) (k : A → M B) : M B := λ s,
  match m s with
  | (Ok a, s') => k a s'
  | (Raise e, s') => (Raise e, s')
  end.

#[local] Instance M_bind : Bind M := @mbind.

Definition raise {A : Type} (e : exn) : M A := λ s, (Raise e, s).
Definition lift {A : Type} (r : result A) : M A := λ s, (r, s).
Definition gets {A : Type} (f : System → A) : M A := λ s, (Ok (f s), s).
Definition modify (f : System → System) : M unit := λ s, (Ok tt, f s).
Definition emit (e : Event) : M unit := modify (record e).

(** [self.name] for an attribute that may not exist yet. *)
Definition getattr {A : Type} (f : System → option A) (name : string) : M A :=
  let* o := gets f in
  match o with
  | Some a => ret a
  | None => raise (AttributeError name)
  end.

(** [self.log(name, value)]. *)
Definition log (name : string) (value : scalar) : M unit :=
  emit (Logged name value).

Fixpoint assoc {V : Type} (k : string) (l : list (string * V)) : option V :=
  match l with
  | [] => None
  | (k', v) :: l' => if String.eqb k' k then Some v else assoc k l'
  end.

(** [self.C(self.cfg.loss.<name>)]. *)
Definition weight (name : string) : M R :=
  let* c := gets cfg in
  match assoc name (cfg_loss c) with
  | Some v => let* step := gets global_step in ret (C step v)
  | None => raise (AttributeError name)
  end.

(** *** [configure] *)

Definition configure (c : Config) (step : nat) : System :=
  let geometry := find_geometry threestudio (cfg_geometry_type c) (cfg_geometry c) in
  let material := find_material threestudio (cfg_material_type c) (cfg_material c) in
  let background :=
    find_background threestudio (cfg_background_type c) (cfg_background c) in
  let renderer :=
    find_renderer threestudio (cfg_renderer_type c) (cfg_renderer c)
                  geometry material background in
  mkSystem c geometry material background renderer
           None
           None
           (match cfg_guide_shape c with
            | Some guide_shape => Some (new_ShapeLoss threestudio guide_shape)
            | None => None
            end)
           step [].

(** *** [setup_guidance] *)

Definition setup_guidance : M unit :=
  do emit SetupGuidance in
  let* g := gets guidance in
  match g with
  | None =>
      let* c := gets cfg in
      do emit NewGuidance in
      modify (set_guidance
                (Some (find_guidance threestudio (cfg_guidance_type c)
                                     (cfg_guidance c))))
  | Some _ => ret tt
  end.

(** *** [forward] *)

Definition forward (batch : Batch) (decode : bool) : M (gmap string Tensor) :=
  let* r := gets renderer in
  do emit Rendered in
  let render_out := r batch in
  let out := render_out in
  if decode then
    let* refinement := gets (λ s, cfg_refinement (cfg s)) in
    if refinement then
      let* comp_rgb := lift (getitem out "comp_rgb") in
      ret (<["decoded_rgb" := comp_rgb]> out)
    else
      let* g := gets guidance in
      match g with
      | None => raise (AttributeError "decode_latents")
      | Some g =>
          let* comp_rgb := lift (getitem out "comp_rgb") in
          let* latents := lift (permute [0; 3; 1; 2] comp_rgb) in
          do emit LatentsDecoded in
          let* decoded := lift (permute [0; 2; 3; 1] (decode_latents g latents)) in
          ret (<["decoded_rgb" := decoded]> out)
      end
  else ret out.

(** *** Lifecycle hooks *)

Definition on_fit_start : M unit :=
  let* c := gets cfg in
  do emit NewPromptProcessor in
  do modify (set_prompt_processor
               (Some (find_prompt_processor threestudio
                        (cfg_prompt_processor_type c)
                        (cfg_prompt_processor c)))) in
  setup_guidance.

Definition on_validation_start : M unit :=
  let* refinement := gets (λ s, cfg_refinement (cfg s)) in
  if negb refinement then setup_guidance else ret tt.

Definition on_test_start : M unit :=
  let* refinement := gets (λ s, cfg_refinement (cfg s)) in
  if negb refinement then setup_guidance else ret tt.

(** *** The loss terms of [training_step] *)

(** Lines 107-110: [(out["weights"].detach() * dot(out["normal"],
    out["t_dirs"]).clamp_min(0.0) ** 2).sum() / (out["opacity"] > 0).sum()]. *)
Definition loss_orient (out : gmap string Tensor) : result scalar :=
  let* weights := getitem out "weights" in
  let* normal := getitem out "normal" in
  let* t_dirs := getitem out "t_dirs" in
  let* nd := dot normal t_dirs in
  let* weighted := mul (detach weights) (pow2 (clamp_min 0.0 nd)) in
  let* opacity := getitem out "opacity" in
  Ok (div_count (sum weighted) (count_pos opacity)).

(** Line 114: [(out["opacity"] ** 2 + 0.01).sqrt().mean()]. *)
Definition loss_sparsity (out : gmap string Tensor) : result scalar :=
  let* opacity := getitem out "opacity" in
  Ok (mean (tsqrt (add_const 0.01 (pow2 opacity)))).

(** Lines 118-119. *)
Definition loss_opaque (out : gmap string Tensor) : result scalar :=
  let* opacity := getitem out "opacity" in
  let opacity_clamped := clamp 1.0e-3 (1.0 - 1.0e-3) opacity in
  binary_cross_entropy opacity_clamped opacity_clamped.

(** Lines 128-129: every configured weight is logged. *)
Fixpoint log_params (step : nat) (items : list (string * Schedule)) : M unit :=
  match items with
  | [] => ret tt
  | (name, value) :: items' =>
      do log ("train_params/" ++ name) (Finite (C step value)) in
      log_params step items'
  end.

(** *** [training_step] *)

(** Lines 92-100: render, encode the prompt, query the guidance model and
    start the running loss with the weighted distillation loss. *)
Definition guidance_term (batch : Batch) : M (gmap string Tensor * scalar) :=
  let* out := forward batch false in
  let* encode := getattr prompt_processor "prompt_processor" in
  do emit Encoded in
  let text_embeddings := encode batch in
  let* g := gets guidance in
  let* comp_rgb := lift (getitem out "comp_rgb") in
  let* refinement := gets (λ s, cfg_refinement (cfg s)) in
  let* guidance_out :=
    match g with
    | None => raise (TypeError "'NoneType' object is not callable")
    | Some g =>
        do emit GuidanceQueried in
        ret (call g comp_rgb text_embeddings (negb refinement))
    end in
  let loss := Finite 0.0 in
  let* sds := lift (getitem guidance_out "sds") in
  let* lambda_sds := weight "lambda_sds" in
  ret (out, sadd loss (smul sds (Finite lambda_sds))).

Definition no_normal : string :=
  "Normal is required for orientation loss, no normal is found in the output.".

(** Lines 102-112: the orientation term, added to the running [loss]. *)
Definition orientation_term (out : gmap string Tensor) (loss : scalar)
  : M scalar :=
  let* lambda_orient := weight "lambda_orient" in
  if decide (0 < lambda_orient)%R then
    if negb (contains out "normal") then raise (ValueError no_normal)
    else
      let* l := lift (loss_orient out) in
      do log "train/loss_orient" l in
      let* lambda_orient := weight "lambda_orient" in
      ret (sadd loss (smul l (Finite lambda_orient)))
  else ret loss.

(** Lines 114-116: the sparsity term. *)
Definition sparsity_term (out : gmap string Tensor) (loss : scalar)
  : M scalar :=
  let* l := lift (loss_sparsity out) in
  do log "train/loss_sparsity" l in
  let* lambda_sparsity := weight "lambda_sparsity" in
  ret (sadd loss (smul l (Finite lambda_sparsity))).

(** Lines 118-121: the opacity-binarization term. *)
Definition opaque_term (out : gmap string Tensor) (loss : scalar) : M scalar :=
  let* l := lift (loss_opaque out) in
  do log "train/loss_opaque" l in
  let* lambda_opaque := weight "lambda_opaque" in
  ret (sadd loss (smul l (Finite lambda_opaque))).

(** Lines 123-126: the shape term. *)
Definition shape_term (out : gmap string Tensor) (loss : scalar) : M scalar :=
  let* lambda_shape := weight "lambda_shape" in
  let* some_points :=
    if decide (0 < lambda_shape)%R then
      let* points := lift (getitem out "points") in
      let* n := lift (shape0 points) in
      ret (bool_decide (0 < n))
    else ret false in
  if some_points then
    let* evaluate := getattr shape_loss "shape_loss" in
    let* points := lift (getitem out "points") in
    let* density := lift (getitem out "density") in
    do emit ShapeLossEvaluated in
    let l := evaluate points density in
    do log "train/loss_shape" l in
    let* lambda_shape := weight "lambda_shape" in
    ret (sadd loss (smul l (Finite lambda_shape)))
  else ret loss.

(** The method, block after block, with the two conditional terms as
    parameters so that a step can be compared with the step that lacks one
    of them. *)
Definition training_step_with
    (orientation shape : gmap string Tensor → scalar → M scalar)
    (batch : Batch) (batch_idx : nat) : M (gmap string scalar) :=
  let* started := guidance_term batch in
  let out := started.1 in
  let loss := started.2 in
  let* loss := orientation out loss in
  let* loss := sparsity_term out loss in
  let* loss := opaque_term out loss in
  let* loss := shape out loss in
  let* c := gets cfg in
  let* step := gets global_step in
  do log_params step (cfg_loss c) in
  ret {["loss" := loss]}.

Definition training_step : Batch → nat → M (gmap string scalar) :=
  training_step_with orientation_term shape_term.

(** A term that is not computed: the running loss goes through as it is. *)
Definition no_term (out : gmap string Tensor) (loss : scalar) : M scalar :=
  ret loss.

(** *** [on_save_checkpoint] *)

(** A checkpoint maps names to values of any kind; the entry ["state_dict"]
    maps dotted parameter names to tensors. *)
Inductive CheckpointValue : Type :=
  | StateDict (d : gmap string Tensor)
  | Other (description : string).

(** [k.split(".")[0]]: the subscript cannot fail, [split] returning at least
    one segment ([split_cons] below). *)
Definition top_level (k : string) : string :=
  match split "." k with
  | seg :: _ => seg
  | [] => k
  end.

(** [k.split(".")[0] not in ["prompt_processor", "guidance"]]. *)
Definition kept (k : string) : bool :=
  negb (str_in (top_level k) ["prompt_processor"; "guidance"]).

(** The dictionary comprehension of lines 216-220. *)
Definition filter_state_dict (d : gmap string Tensor) : gmap string Tensor :=
  filter (λ kv, kept kv.1 = true) d.

(** The checkpoint as it is handed to the base class's hook. *)
Definition on_save_checkpoint (checkpoint : gmap string CheckpointValue)
  : result (gmap string CheckpointValue) :=
  let* v := getitem checkpoint "state_dict" in
  match v with
  | StateDict d =>
      Ok (<["state_dict" := StateDict (filter_state_dict d)]> checkpoint)
  | Other _ => Raise (AttributeError "items")
  end.

(** *** [validation_step], [test_step] and the hooks around them *)

(** A keyword argument of an exported image. *)
Inductive KwArg : Type :=
  | KwStr (s : string)
  | KwNone
  | KwRange (lo hi : R).

(** One entry of the list handed to [save_image_grid]. *)
Record Image : Type := mkImage {
  img_type : string;
  img : Tensor;
  kwargs : list (string * KwArg)
}.

(** The image list of lines 141-165 and 175-199, the same in both steps. *)
Definition image_grid (out : gmap string Tensor) : result (list Image) :=
  let* decoded_rgb := getitem out "decoded_rgb" in
  let* rgb := tensor_getitem [At 0] decoded_rgb in
  let* normals :=
    if contains out "comp_normal" then
      let* comp_normal := getitem out "comp_normal" in
      let* normal := tensor_getitem [At 0] comp_normal in
      Ok [mkImage "rgb" normal
            [("data_format", KwStr "HWC"); ("data_range", KwRange 0 1)]]
    else Ok [] in
  let* opacity := getitem out "opacity" in
  let* gray := tensor_getitem [At 0; All; All; At 0] opacity in
  Ok ([mkImage "rgb" rgb [("data_format", KwStr "HWC")]]
      ++ normals
      ++ [mkImage "grayscale" gray
            [("cmap", KwNone); ("data_range", KwRange 0 1)]]).

(** [validation_step]: what it hands to [save_image_grid], the file name
    and the images. *)
Definition validation_step (batch : Batch) (batch_idx : nat)
  : M (string * list Image) :=
  let* out := forward batch true in
  let* step := gets global_step in
  let filename :=
    "it" +:+ str_int step +:+ "-" +:+ str_int batch_idx +:+ ".png" in
  let* imgs := lift (image_grid out) in
  ret (filename, imgs).

Definition on_validation_epoch_end : M unit := ret tt.

(** [test_step]: as [validation_step], into the directory of the test
    frames. *)
Definition test_step (batch : Batch) (batch_idx : nat)
  : M (string * list Image) :=
  let* out := forward batch true in
  let* step := gets global_step in
  let filename :=
    "it" +:+ str_int step +:+ "-test/" +:+ str_int batch_idx +:+ ".png" in
  let* imgs := lift (image_grid out) in
  ret (filename, imgs).

(** [self.geometry.isosurface()]: vertex positions and triangle indices. *)
Variable isosurface : Geometry → Tensor * Tensor.

(** The arguments of [save_img_sequence]. *)
Record ImgSequence : Type := mkImgSequence {
  seq_filename : string;
  seq_img_dir : string;
  seq_save_format : string;
  seq_fps : nat
}.

(** The arguments of [save_mesh]. *)
Record MeshFile : Type := mkMeshFile {
  mesh_filename : string;
  v_pos : Tensor;
  t_pos_idx : Tensor
}.

(** [on_test_epoch_end]: what it hands to [save_img_sequence], with the
    matcher ["(\d+)\.png"], and to [save_mesh]. *)
Definition on_test_epoch_end : M (ImgSequence * MeshFile) :=
  let* step := gets global_step in
  let sequence :=
    mkImgSequence ("it" +:+ str_int step +:+ "-test")
                  ("it" +:+ str_int step +:+ "-test") "mp4" 30 in
  let* g := gets geometry in
  let mesh := isosurface g in
  ret (sequence, mkMeshFile "mesh.obj" mesh.1 mesh.2).

Definition on_before_optimizer_step : M unit := ret tt.

(** ** Definitions used to state the properties *)

(** The top-level segment of a dotted name, in the spec's words: the
    characters before the first dot. *)
Fixpoint first_segment (k : string) : string :=
  match k with
  | EmptyString => EmptyString
  | String c k' =>
      if Ascii.eqb c "." then EmptyString else String c (first_segment k')
  end.

(** How often a kind of event occurs in a trace. *)
Fixpoint occurrences (p : Event → bool) (t : list Event) : nat :=
  match t with
  | [] => 0
  | e :: t' => (if p e then 1 else 0) + occurrences p t'
  end.

Definition is_NewGuidance (e : Event) : bool :=
  match e with NewGuidance => true | _ => false end.

Definition is_SetupGuidance (e : Event) : bool :=
  match e with SetupGuidance => true | _ => false end.

Definition is_ShapeLossEvaluated (e : Event) : bool :=
  match e with ShapeLossEvaluated => true | _ => false end.

(** Guidance models constructed so far. *)
Definition constructions (s : System) : nat :=
  occurrences is_NewGuidance (trace s).

(** The state a method leaves behind. *)
Definition after {A : Type} (m : M A) (s : System) : System := (m s).2.

(** The value or exception a method ends with. *)
Definition outcome {A : Type} (m : M A) (s : System) : result A := (m s).1.

(** [n] calls in a row. *)
Fixpoint repeated (n : nat) (m : M unit) : M unit :=
  match n with
  | O => ret tt
  | S n' => do m in repeated n' m
  end.

(** What the training framework may ask of the controller during a run. *)
Inductive Request : Type :=
  | FitStart
  | ValidationStart
  | TestStart
  | EnsureGuidance
  | Forward (batch : Batch) (decode : bool)
  | TrainingStep (batch : Batch) (batch_idx : nat).

Definition serve (r : Request) : M unit :=
  match r with
  | FitStart => on_fit_start
  | ValidationStart => on_validation_start
  | TestStart => on_test_start
  | EnsureGuidance => setup_guidance
  | Forward batch decode => do forward batch decode in ret tt
  | TrainingStep batch batch_idx => do training_step batch batch_idx in ret tt
  end.

(** A run: the requests in order, ended by the first exception. *)
Fixpoint run (rs : list Request) : M unit :=
  match rs with
  | [] => ret tt
  | r :: rs' => do serve r in run rs'
  end.

(** The requests of a run that only validates or tests. *)
Definition evaluation_only (r : Request) : bool :=
  match r with
  | ValidationStart | TestStart | Forward _ _ => true
  | _ => false
  end.

(** The guidance model [setup_guidance] constructs. *)
Definition fresh_guidance (s : System) : Guidance :=
  find_guidance threestudio (cfg_guidance_type (cfg s)) (cfg_guidance (cfg s)).

(** Calls of [setup_guidance] so far. *)
Definition setup_calls (s : System) : nat :=
  occurrences is_SetupGuidance (trace s).

(** [s'] has the configuration and the guidance attribute of [s], and no
    [setup_guidance] was called and no guidance model constructed between
    the two. *)
Definition untouched (s s' : System) : Prop :=
  cfg s' = cfg s
  ∧ guidance s' = guidance s
  ∧ constructions s' = constructions s
  ∧ setup_calls s' = setup_calls s.

(** A method is quiet when it leaves the guidance model alone. *)
Definition quiet {A : Type} (m : M A) : Prop :=
  ∀ s, untouched s (after m s).

(** A method appends only [allowed] events to the trace, and keeps the
    configuration and the guidance attribute. *)
Definition appends (allowed : Event → bool) {A : Type} (m : M A) : Prop :=
  ∀ s, cfg (after m s) = cfg s
       ∧ guidance (after m s) = guidance s
       ∧ global_step (after m s) = global_step s
       ∧ ∃ evs, trace (after m s) = trace s ++ evs
                ∧ forallb allowed evs = true.

(** As many guidance models were constructed as the attribute holds. *)
Definition balanced (s : System) : Prop :=
  constructions s = if guidance s is Some _ then 1 else 0.

(** The condition of line 123, on the state and the render output: the
    weight [lambda_shape] is positive and there is at least one sample
    point. *)
Definition shape_due (s : System) (out : gmap string Tensor) : bool :=
  match assoc "lambda_shape" (cfg_loss (cfg s)) with
  | Some v =>
      bool_decide (0 < C (global_step s) v)%R
      && match out !! "points" with
         | Some points =>
             match shape points with
             | S _ :: _ => true
             | _ => false
             end
         | None => false
         end
  | None => false
  end.

(** A method with its effects on the state erased. *)
Definition muted {A : Type} (m : M A) : M A := λ s, (outcome m s, s).

(** Shape-loss evaluations so far. *)
Definition shape_evaluations (s : System) : nat :=
  occurrences is_ShapeLossEvaluated (trace s).

(** *** The loss terms in the spec's words *)

(** The sum of [f i] over the indices [i < n]. *)
Fixpoint big_sum (n : nat) (f : nat → R) : R :=
  match n with
  | O => 0%R
  | S n' => (big_sum n' f + f n')%R
  end.

(** How many indices [i < n] satisfy [p]. *)
Fixpoint count_below (n : nat) (p : nat → bool) : nat :=
  match n with
  | O => 0
  | S n' => count_below n' p + (if p n' then 1 else 0)
  end.

(** Entry [i] of a tensor, in row-major order. *)
Definition entry (t : Tensor) (i : nat) : R := nth i (data t) 0%R.

Definition positive_part (x : R) : R := Rmax 0 x.

(** The dot product of rows [i] of two tensors with rows of [d] entries. *)
Definition row_dot (d : nat) (x y : Tensor) (i : nat) : R :=
  big_sum d (λ j, entry x (i * d + j) * entry y (i * d + j))%R.

(** The sum over all [n] samples of the sample weight times the squared
    positive part of the dot product of normal and ray direction. *)
Definition orientation_sum (n d : nat) (weights normal t_dirs : Tensor) : R :=
  big_sum n
    (λ i, entry weights i * positive_part (row_dot d normal t_dirs i) ^ 2)%R.

(** The count of entries of the opacity that exceed zero. *)
Definition positive_count (opacity : Tensor) : nat :=
  count_below (numel opacity) (λ i, bool_decide (0 < entry opacity i)%R).

(** The mean over all rays of [sqrt (opacity^2 + 0.01)]. *)
Definition sparsity_mean (opacity : Tensor) : R :=
  (big_sum (numel opacity) (λ i, sqrt (entry opacity i ^ 2 + 0.01))
   / INR (numel opacity))%R.

(** The binary cross-entropy of a probability against itself. *)
Definition entropy (p : R) : R := (- (p * ln p + (1 - p) * ln (1 - p)))%R.

(** Clamping into [[1e-3, 1 - 1e-3]]. *)
Definition clamped (x : R) : R := Rmin (Rmax x 1.0e-3) (1.0 - 1.0e-3).

(** The mean over all rays of the entropy of the clamped opacity. *)
Definition opaque_mean (opacity : Tensor) : R :=
  (big_sum (numel opacity) (λ i, entropy (clamped (entry opacity i)))
   / INR (numel opacity))%R.


(** A render output of one sample on one ray that accumulated no opacity. *)
Definition sparse_scene : gmap string Tensor :=
  <["weights" := mkTensor [1; 1] [0%R]]>
    (<["normal" := mkTensor [1; 3] [0; 0; 1]%R]>
       (<["t_dirs" := mkTensor [1; 3] [0; 0; 1]%R]>
          (<["opacity" := mkTensor [1; 1; 1; 1] [0%R]]> ∅))).

(** The events of a training step but for those of [shape_term]. *)
Definition step_event (e : Event) : bool :=
  match e with
  | Rendered | Encoded | GuidanceQueried | Logged _ _ => true
  | _ => false
  end.

(** Events that neither call [setup_guidance] nor construct a model. *)
Definition not_guidance (e : Event) : bool :=
  negb (is_NewGuidance e || is_SetupGuidance e).

(** *** Attributes, export and the regularizers' bounds *)

(** [s] with another trace: every attribute of [self] as in [s]. *)
Definition with_trace (t : list Event) (s : System) : System :=
  mkSystem (cfg s) (geometry s) (material s) (background s) (renderer s)
           (guidance s) (prompt_processor s) (shape_loss s) (global_step s) t.

(** A method that assigns no attribute of [self]: all it leaves behind are
    events, and only [allowed] ones. *)
Definition only_emits (allowed : Event → bool) {A : Type} (m : M A) : Prop :=
  ∀ s, ∃ evs, after m s = with_trace (trace s ++ evs) s
              ∧ forallb allowed evs = true.

(** The events of rendering and decoding. *)
Definition render_event (e : Event) : bool :=
  match e with
  | Rendered | LatentsDecoded => true
  | _ => false
  end.

Definition any_event (e : Event) : bool := true.

Definition is_NewPromptProcessor (e : Event) : bool :=
  match e with NewPromptProcessor => true | _ => false end.

(** Once the prompt processor exists, so does the guidance model. *)
Definition ready (s : System) : Prop :=
  is_Some (prompt_processor s) → is_Some (guidance s).

(** The log entries of lines 128-129. *)
Definition param_logs (step : nat) (items : list (string * Schedule))
  : list Event :=
  (λ nv, Logged ("train_params/" ++ nv.1) (Finite (C step nv.2))) <$> items.

(** A tensor with as many entries as its shape says. *)
Definition well_formed (t : Tensor) : Prop :=
  length (data t) = prod_shape (shape t).

(** [s'] is set up as [s]: what [configure] assigned, but for the guidance
    model, is the same, and so is the global step. *)
Definition same_setup (s s' : System) : Prop :=
  cfg s' = cfg s
  ∧ renderer s' = renderer s
  ∧ shape_loss s' = shape_loss s
  ∧ global_step s' = global_step s.

Definition is_FitStart (r : Request) : bool :=
  match r with FitStart => true | _ => false end.

(** Exceptions that are not the [TypeError] of calling [None]. *)
Definition not_TypeError (e : exn) : bool :=
  match e with TypeError _ => false | _ => true end.

(** A method whose exceptions all satisfy [ok]. *)
Definition raises_only (ok : exn → bool) {A : Type} (m : M A) : Prop :=
  ∀ s e, outcome m s = Raise e → ok e = true.

(** The first element of a batch: the leading axis dropped, the entries of
    the first slab kept. *)
Definition first_of_batch (t : Tensor) : Tensor :=
  mkTensor (tail (shape t))
           (take (prod_shape (tail (shape t))) (data t)).

(** Every [c]-th entry of the first [m]. *)
Definition every (c m : nat) (l : list R) : list R :=
  (λ k, l !!! (k * c)) <$> seq 0 m.

(** [k.startswith(p)]. *)
Fixpoint startswith (p k : string) : bool :=
  match p, k with
  | EmptyString, _ => true
  | String a p', String c k' => Ascii.eqb a c && startswith p' k'
  | String _ _, EmptyString => false
  end.

(** The name of frame [batch_idx] inside its directory. *)
Definition frame_name (batch_idx : nat) : string :=
  str_int batch_idx +:+ ".png".

(** * Properties *)

(** ** Checkpoint filtering *)

Example split_dotted :
  split "." "geometry.encoding.w" = ["geometry"; "encoding"; "w"].
Proof. reflexivity. Qed.

Example split_edges : split "." "" = [""] ∧ split "." ".a." = [""; "a"; ""].
Proof. by split. Qed.

Lemma split_cons (sep : ascii) (s : string) :
  ∃ seg rest, split sep s = seg :: rest.
Proof.
  induction s as [|c s IH]; simpl; [by eauto|].
  destruct (Ascii.eqb c sep); [by eauto|].
  destruct IH as (seg & rest & ->). by eauto.
Qed.

Lemma top_level_first_segment (k : string) : top_level k = first_segment k.
Proof.
  unfold top_level. induction k as [|c k IH]; simpl; [done|].
  destruct (Ascii.eqb c "."); [done|].
  destruct (split_cons "." k) as (seg & rest & Hs).
  rewrite Hs in IH |- *. by rewrite IH.
Qed.

Lemma filter_state_dict_lookup (d : gmap string Tensor) (k : string) :
  filter_state_dict d !! k = if kept k then d !! k else None.
Proof.
  unfold filter_state_dict. destruct (kept k) eqn:Hk.
  - destruct (d !! k) as [t|] eqn:Hd.
    + by apply map_lookup_filter_Some.
    + apply map_lookup_filter_None. left. done.
  - apply map_lookup_filter_None. right. intros t _. simpl. congruence.
Qed.

Lemma kept_spec (k : string) :
  kept k = true ↔
  first_segment k ≠ "prompt_processor" ∧ first_segment k ≠ "guidance".
Proof.
  unfold kept, str_in. rewrite top_level_first_segment. simpl.
  rewrite orb_false_r, negb_true_iff, orb_false_iff.
  by rewrite !String.eqb_neq.
Qed.

(** C2.  [on_save_checkpoint] replaces the state dict of the checkpoint by
    the one that keeps exactly the entries whose top-level dotted-name
    segment is neither ["prompt_processor"] nor ["guidance"], every kept
    entry with its value; a state dict with the keys ["geometry.w"],
    ["guidance.w"] and ["prompt_processor.w"] is filtered down to
    ["geometry.w"] alone. *)
Theorem on_save_checkpoint_filters :
  ∀ (checkpoint : gmap string CheckpointValue) (d : gmap string Tensor),
    (∃ d',
      on_save_checkpoint (<["state_dict" := StateDict d]> checkpoint)
      = Ok (<["state_dict" := StateDict d']> checkpoint)
      ∧ ∀ k, d' !! k =
             if decide (first_segment k = "prompt_processor"
                        ∨ first_segment k = "guidance")
             then None else d !! k)
    ∧ ∀ t1 t2 t3 : Tensor,
        on_save_checkpoint
          (<["state_dict" :=
               StateDict (<["geometry.w" := t1]>
                            (<["guidance.w" := t2]>
                               (<["prompt_processor.w" := t3]> ∅)))]> checkpoint)
        = Ok (<["state_dict" := StateDict {["geometry.w" := t1]}]> checkpoint).
Proof.
  intros checkpoint d.
  assert (Hrun : ∀ d0, on_save_checkpoint (<["state_dict" := StateDict d0]> checkpoint)
            = Ok (<["state_dict" := StateDict (filter_state_dict d0)]> checkpoint)).
  { intros d0. unfold on_save_checkpoint, getitem.
    rewrite lookup_insert_eq. unfold bind, result_bind, rbind.
    by rewrite insert_insert_eq. }
  split.
  - exists (filter_state_dict d). split; [apply Hrun|].
    intros k. rewrite filter_state_dict_lookup.
    destruct (kept k) eqn:Hk.
    + apply kept_spec in Hk as [? ?]. case_decide; [|done]. tauto.
    + case_decide as Hdec; [done|]. exfalso.
      assert (kept k = true) by (apply kept_spec; tauto). congruence.
  - intros t1 t2 t3. rewrite Hrun. reflexivity.
Qed.

(** ** Running methods *)

Lemma bind_Ok {A B : Type} (m : M A) (k : A → M B) (s : System) (a : A) :
  outcome m s = Ok a → (let* x := m in k x) s = k a (after m s).
Proof.
  unfold outcome, after, bind, M_bind, mbind.
  destruct (m s) as [r s1]. simpl. by intros ->.
Qed.

Lemma bind_Raise {A B : Type} (m : M A) (k : A → M B) (s : System) (e : exn) :
  outcome m s = Raise e → (let* x := m in k x) s = (Raise e, after m s).
Proof.
  unfold outcome, after, bind, M_bind, mbind.
  destruct (m s) as [r s1]. simpl. by intros ->.
Qed.

Lemma after_bind {A B : Type} (m : M A) (k : A → M B) (s : System) :
  after (let* x := m in k x) s
  = match outcome m s with
    | Ok a => after (k a) (after m s)
    | Raise _ => after m s
    end.
Proof.
  unfold outcome, after, bind, M_bind, mbind.
  by destruct (m s) as [[a|e] s1].
Qed.

(** ** Methods that leave the guidance model alone *)

Lemma occurrences_app (p : Event → bool) (t1 t2 : list Event) :
  occurrences p (t1 ++ t2) = occurrences p t1 + occurrences p t2.
Proof. induction t1 as [|e t1 IH]; simpl; [done|]. rewrite IH. lia. Qed.

Lemma occurrences_none (allowed p : Event → bool) (t : list Event) :
  (∀ e, allowed e = true → p e = false) →
  forallb allowed t = true → occurrences p t = 0.
Proof.
  intros Hp. induction t as [|e t IH]; simpl; [done|].
  intros [He Ht]%andb_true_iff. by rewrite (Hp e He), IH.
Qed.

Lemma appends_ret (allowed : Event → bool) {A : Type} (a : A) :
  appends allowed (ret a).
Proof. intros s. split_and!; [done..|]. exists []. by rewrite app_nil_r. Qed.

Lemma appends_raise (allowed : Event → bool) {A : Type} (e : exn) :
  appends allowed (@raise A e).
Proof. intros s. split_and!; [done..|]. exists []. by rewrite app_nil_r. Qed.

Lemma appends_lift (allowed : Event → bool) {A : Type} (r : result A) :
  appends allowed (lift r).
Proof. intros s. split_and!; [done..|]. exists []. by rewrite app_nil_r. Qed.

Lemma appends_gets (allowed : Event → bool) {A : Type} (f : System → A) :
  appends allowed (gets f).
Proof. intros s. split_and!; [done..|]. exists []. by rewrite app_nil_r. Qed.

Lemma appends_bind (allowed : Event → bool) {A B : Type}
    (m : M A) (k : A → M B) :
  appends allowed m → (∀ a, appends allowed (k a)) →
  appends allowed (let* a := m in k a).
Proof.
  intros Hm Hk s. destruct (Hm s) as (Hc & Hg & Hst & evs & Ht & Hevs).
  rewrite after_bind. destruct (outcome m s) as [a|e]; [|by eauto 10].
  destruct (Hk a (after m s)) as (Hc' & Hg' & Hst' & evs' & Ht' & Hevs').
  rewrite Hc', Hg', Hst', Ht', Ht. split_and!; [done..|].
  exists (evs ++ evs'). rewrite app_assoc, forallb_app, Hevs, Hevs'. done.
Qed.

Lemma appends_emit (allowed : Event → bool) (e : Event) :
  allowed e = true → appends allowed (emit e).
Proof.
  intros He s. split_and!; [done..|]. exists [e]. simpl. by rewrite He.
Qed.

Lemma appends_set_prompt_processor (allowed : Event → bool)
    (p : option PromptProcessor) :
  appends allowed (modify (set_prompt_processor p)).
Proof. intros s. split_and!; [done..|]. exists []. by rewrite app_nil_r. Qed.

Create HintDb appends.

#[local] Hint Resolve appends_ret appends_raise appends_lift appends_gets
  appends_set_prompt_processor : appends.

(** One step through a method body: a sequencing, a primitive, or a case
    distinction on the value that decides a branch. *)
Ltac appends_step :=
  first
    [ apply appends_bind; [|intros ?]
    | solve [auto with appends]
    | apply appends_emit; reflexivity
    | match goal with
      | |- appends _ (match ?x with _ => _ end) => destruct x
      end ].

Lemma appends_getattr (allowed : Event → bool) {A : Type}
    (f : System → option A) (name : string) :
  appends allowed (getattr f name).
Proof. unfold getattr. repeat appends_step. Qed.

Lemma appends_weight (allowed : Event → bool) (name : string) :
  appends allowed (weight name).
Proof. unfold weight. repeat appends_step. Qed.

Lemma appends_log (allowed : Event → bool) (name : string) (v : scalar) :
  allowed (Logged name v) = true → appends allowed (log name v).
Proof. apply appends_emit. Qed.

Lemma appends_log_params (allowed : Event → bool) (step : nat)
    (items : list (string * Schedule)) :
  (∀ name v, allowed (Logged name v) = true) →
  appends allowed (log_params step items).
Proof.
  intros Hlog.
  induction items as [|[name value] items IH]; simpl; [auto with appends|].
  apply appends_bind; [by apply appends_log|done].
Qed.

#[local] Hint Resolve appends_getattr appends_weight : appends.

Lemma appends_forward (allowed : Event → bool) (batch : Batch) (decode : bool) :
  allowed Rendered = true → allowed LatentsDecoded = true →
  appends allowed (forward batch decode).
Proof.
  intros H1 H2. unfold forward.
  repeat first [appends_step | by apply appends_emit].
Qed.

Lemma appends_guidance_term (allowed : Event → bool) (batch : Batch) :
  (∀ e, step_event e = true → allowed e = true) →
  appends allowed (guidance_term batch).
Proof.
  intros Ha. unfold guidance_term.
  repeat first
    [ by apply appends_forward; apply Ha
    | appends_step
    | by apply appends_emit, Ha ].
Qed.

Lemma appends_orientation_term (allowed : Event → bool)
    (out : gmap string Tensor) (loss : scalar) :
  (∀ e, step_event e = true → allowed e = true) →
  appends allowed (orientation_term out loss).
Proof.
  intros Ha. unfold orientation_term.
  repeat first [appends_step | by apply appends_log, Ha].
Qed.

Lemma appends_sparsity_term (allowed : Event → bool)
    (out : gmap string Tensor) (loss : scalar) :
  (∀ e, step_event e = true → allowed e = true) →
  appends allowed (sparsity_term out loss).
Proof.
  intros Ha. unfold sparsity_term.
  repeat first [appends_step | by apply appends_log, Ha].
Qed.

Lemma appends_opaque_term (allowed : Event → bool)
    (out : gmap string Tensor) (loss : scalar) :
  (∀ e, step_event e = true → allowed e = true) →
  appends allowed (opaque_term out loss).
Proof.
  intros Ha. unfold opaque_term.
  repeat first [appends_step | by apply appends_log, Ha].
Qed.

Lemma appends_shape_term (allowed : Event → bool)
    (out : gmap string Tensor) (loss : scalar) :
  (∀ e, step_event e = true → allowed e = true) →
  allowed ShapeLossEvaluated = true →
  appends allowed (shape_term out loss).
Proof.
  intros Ha Hs. unfold shape_term.
  repeat first [appends_step | by apply appends_log, Ha | by apply appends_emit].
Qed.

Lemma appends_training_step_with (allowed : Event → bool)
    (orientation shape : gmap string Tensor → scalar → M scalar)
    (batch : Batch) (batch_idx : nat) :
  (∀ e, step_event e = true → allowed e = true) →
  (∀ out loss, appends allowed (orientation out loss)) →
  (∀ out loss, appends allowed (shape out loss)) →
  appends allowed (training_step_with orientation shape batch batch_idx).
Proof.
  intros Ha Ho Hs. unfold training_step_with.
  repeat first
    [ by apply appends_guidance_term
    | by apply appends_sparsity_term
    | by apply appends_opaque_term
    | by apply appends_log_params; intros; apply Ha
    | done
    | appends_step ].
Qed.

Lemma appends_training_step (allowed : Event → bool)
    (batch : Batch) (batch_idx : nat) :
  (∀ e, step_event e = true → allowed e = true) →
  allowed ShapeLossEvaluated = true →
  appends allowed (training_step batch batch_idx).
Proof.
  intros Ha Hs. apply appends_training_step_with; [done|..].
  - intros. by apply appends_orientation_term.
  - intros. by apply appends_shape_term.
Qed.

Lemma appends_quiet {A : Type} (m : M A) : appends not_guidance m → quiet m.
Proof.
  intros Hm s. destruct (Hm s) as (Hc & Hg & _ & evs & Ht & Hevs).
  unfold untouched, constructions, setup_calls.
  rewrite Ht, !occurrences_app.
  rewrite (occurrences_none not_guidance is_NewGuidance evs)
    by first [done | by intros []].
  rewrite (occurrences_none not_guidance is_SetupGuidance evs)
    by first [done | by intros []].
  by rewrite !Nat.add_0_r.
Qed.

Lemma quiet_forward (batch : Batch) (decode : bool) :
  quiet (do forward batch decode in ret tt).
Proof.
  apply appends_quiet. apply appends_bind; [|auto with appends].
  by apply appends_forward.
Qed.

Lemma quiet_training_step (batch : Batch) (batch_idx : nat) :
  quiet (do training_step batch batch_idx in ret tt).
Proof.
  apply appends_quiet. apply appends_bind; [|auto with appends].
  apply appends_training_step; [by intros []|done].
Qed.

(** ** Deferred construction of the guidance model *)

(** One call of [setup_guidance], in full. *)
Lemma setup_guidance_effect (s : System) :
  outcome setup_guidance s = Ok tt
  ∧ guidance (after setup_guidance s)
    = Some (default (fresh_guidance s) (guidance s))
  ∧ trace (after setup_guidance s)
    = trace s ++ SetupGuidance :: (if guidance s is Some _ then [] else [NewGuidance])
  ∧ cfg (after setup_guidance s) = cfg s.
Proof.
  unfold outcome, after, setup_guidance, fresh_guidance.
  destruct s as [c ge ma ba re [g|] pp sl st tr]; simpl; split_and!; try done.
  by rewrite <- app_assoc.
Qed.

Lemma setup_guidance_constructions (s : System) :
  constructions (after setup_guidance s)
  = constructions s + (if guidance s is Some _ then 0 else 1).
Proof.
  unfold constructions.
  destruct (setup_guidance_effect s) as (_ & _ & -> & _).
  rewrite occurrences_app. by destruct (guidance s).
Qed.

Lemma repeated_setup_guidance_S (n : nat) (s : System) :
  repeated (S n) setup_guidance s
  = repeated n setup_guidance (after setup_guidance s).
Proof.
  destruct (setup_guidance_effect s) as (Ho & _).
  simpl. by rewrite (bind_Ok _ _ _ _ Ho).
Qed.

Lemma after_repeated_S (n : nat) (s : System) :
  after (repeated (S n) setup_guidance) s
  = after (repeated n setup_guidance) (after setup_guidance s).
Proof. unfold after. by rewrite repeated_setup_guidance_S. Qed.

Lemma outcome_repeated_S (n : nat) (s : System) :
  outcome (repeated (S n) setup_guidance) s
  = outcome (repeated n setup_guidance) (after setup_guidance s).
Proof. unfold outcome. by rewrite repeated_setup_guidance_S. Qed.

Lemma repeated_setup_guidance (n : nat) (s : System) :
  outcome (repeated n setup_guidance) s = Ok tt
  ∧ guidance (after (repeated (S n) setup_guidance) s)
    = Some (default (fresh_guidance s) (guidance s))
  ∧ constructions (after (repeated (S n) setup_guidance) s)
    = constructions s + (if guidance s is Some _ then 0 else 1).
Proof.
  revert s. induction n as [|n IH]; intros s.
  - rewrite after_repeated_S. split; [done|].
    change (after (repeated 0 setup_guidance) (after setup_guidance s))
      with (after setup_guidance s).
    destruct (setup_guidance_effect s) as (_ & Hg & _).
    split; [done|apply setup_guidance_constructions].
  - rewrite after_repeated_S, outcome_repeated_S.
    destruct (IH (after setup_guidance s)) as (IHo & IHg & IHc).
    destruct (setup_guidance_effect s) as (_ & Hg & _).
    rewrite IHg, IHc, Hg, setup_guidance_constructions. simpl.
    split_and!; [done..|lia].
Qed.

(** [on_fit_start]: the prompt processor, then one [setup_guidance]. *)
Lemma on_fit_start_effect (s : System) :
  outcome on_fit_start s = Ok tt
  ∧ guidance (after on_fit_start s)
    = Some (default (fresh_guidance s) (guidance s))
  ∧ trace (after on_fit_start s)
    = trace s ++ NewPromptProcessor :: SetupGuidance
              :: (if guidance s is Some _ then [] else [NewGuidance])
  ∧ cfg (after on_fit_start s) = cfg s.
Proof.
  unfold outcome, after, on_fit_start, fresh_guidance.
  destruct s as [c ge ma ba re [g|] pp sl st tr]; simpl; split_and!; try done.
  - by rewrite <- app_assoc.
  - by rewrite <- !app_assoc.
Qed.

(** [on_validation_start] and [on_test_start]: one [setup_guidance], unless
    the configuration asks for refinement. *)
Lemma on_validation_start_effect (s : System) :
  on_validation_start s
  = if cfg_refinement (cfg s) then (Ok tt, s) else setup_guidance s.
Proof.
  unfold on_validation_start. by destruct s as [[] ge ma ba re g pp sl st tr],
    cfg_refinement0.
Qed.

Lemma on_test_start_effect (s : System) :
  on_test_start s
  = if cfg_refinement (cfg s) then (Ok tt, s) else setup_guidance s.
Proof.
  unfold on_test_start. by destruct s as [[] ge ma ba re g pp sl st tr],
    cfg_refinement0.
Qed.

Lemma setup_guidance_balanced (s : System) :
  balanced s → balanced (after setup_guidance s).
Proof.
  unfold balanced. intros Hs. rewrite setup_guidance_constructions, Hs.
  destruct (setup_guidance_effect s) as (_ & -> & _).
  by destruct (guidance s).
Qed.

Lemma quiet_balanced {A : Type} (m : M A) (s : System) :
  quiet m → balanced s → balanced (after m s).
Proof. unfold balanced. intros Hm Hs. by destruct (Hm s) as (_ & -> & -> & _). Qed.

Lemma serve_balanced (r : Request) (s : System) :
  balanced s → balanced (after (serve r) s).
Proof.
  intros Hs. destruct r; simpl.
  - unfold balanced, constructions.
    destruct (on_fit_start_effect s) as (_ & -> & -> & _).
    rewrite occurrences_app. unfold balanced, constructions in Hs.
    rewrite Hs. by destruct (guidance s).
  - unfold after. rewrite on_validation_start_effect.
    destruct (cfg_refinement (cfg s)); [done|by apply setup_guidance_balanced].
  - unfold after. rewrite on_test_start_effect.
    destruct (cfg_refinement (cfg s)); [done|by apply setup_guidance_balanced].
  - by apply setup_guidance_balanced.
  - apply quiet_balanced; [apply quiet_forward|done].
  - apply quiet_balanced; [apply quiet_training_step|done].
Qed.

Lemma run_balanced (rs : list Request) (s : System) :
  balanced s → balanced (after (run rs) s).
Proof.
  revert s. induction rs as [|r rs IH]; intros s Hs; [done|].
  simpl. rewrite after_bind. pose proof (serve_balanced r s Hs).
  destruct (outcome (serve r) s); [by apply IH|done].
Qed.

(** C9.  [setup_guidance] is idempotent.  Any number of calls in a row
    succeeds and leaves the guidance model that a single call leaves: the
    instance that existed before, or, if there was none, the one the first
    call constructs; together they construct one model if none existed and
    none otherwise.  In a whole run, from [configure] on and whatever the
    framework requests, at most one guidance model is constructed. *)
Theorem setup_guidance_idempotent :
  ∀ (s : System) (n : nat),
    outcome (repeated (S n) setup_guidance) s = Ok tt
    ∧ guidance (after (repeated (S n) setup_guidance) s)
      = guidance (after setup_guidance s)
    ∧ guidance (after setup_guidance s)
      = Some (default (fresh_guidance s) (guidance s))
    ∧ constructions (after (repeated (S n) setup_guidance) s)
      = constructions s + (if guidance s is Some _ then 0 else 1)
    ∧ ∀ (c : Config) (step : nat) (rs : list Request),
        constructions (after (run rs) (configure c step)) ≤ 1.
Proof.
  intros s n.
  destruct (repeated_setup_guidance (S n) s) as (Ho & _).
  destruct (repeated_setup_guidance n s) as (_ & Hg & Hc).
  destruct (setup_guidance_effect s) as (_ & Hg1 & _).
  split_and!; [done|by rewrite Hg, Hg1|done..|].
  intros c step rs.
  assert (Hb : balanced (after (run rs) (configure c step)))
    by by apply run_balanced.
  unfold balanced in Hb. rewrite Hb.
  destruct (guidance (after (run rs) (configure c step))); lia.
Qed.

Lemma untouched_refl (s : System) : untouched s s.
Proof. by unfold untouched. Qed.

Lemma untouched_trans (s1 s2 s3 : System) :
  untouched s1 s2 → untouched s2 s3 → untouched s1 s3.
Proof.
  unfold untouched. intros (-> & -> & -> & ->) (-> & -> & -> & ->). done.
Qed.

Lemma serve_evaluation_untouched (r : Request) (s : System) :
  cfg_refinement (cfg s) = true → evaluation_only r = true →
  untouched s (after (serve r) s).
Proof.
  intros Href Hr. destruct r; simpl in Hr; try done; simpl.
  - unfold after. rewrite on_validation_start_effect, Href.
    apply untouched_refl.
  - unfold after. rewrite on_test_start_effect, Href. apply untouched_refl.
  - apply quiet_forward.
Qed.

Lemma run_evaluation_untouched (rs : list Request) (s : System) :
  cfg_refinement (cfg s) = true → forallb evaluation_only rs = true →
  untouched s (after (run rs) s).
Proof.
  revert s. induction rs as [|r rs IH]; intros s Href Hrs.
  - apply untouched_refl.
  - simpl in Hrs. apply andb_true_iff in Hrs as [Hr Hrs].
    pose proof (serve_evaluation_untouched r s Href Hr) as Hu.
    simpl. rewrite after_bind. destruct (outcome (serve r) s); [|done].
    apply (untouched_trans _ _ _ Hu). apply IH; [|done].
    destruct Hu as (-> & _). done.
Qed.

Lemma guidance_term_trace (batch : Batch) (s : System) :
  is_ok (outcome (guidance_term batch) s) →
  trace (after (guidance_term batch) s)
  = trace s ++ [Rendered; Encoded; GuidanceQueried].
Proof.
  unfold outcome, after, guidance_term, weight, getattr.
  destruct s as [c ge ma ba re g pp sl st tr].
  unfold bind, M_bind, mbind, gets, emit, modify, lift, ret, raise, getitem.
  simpl.
  repeat (match goal with
          | |- context [match ?x with _ => _ end] => is_var x; destruct x
          | |- context [?m !! ?k] => destruct (m !! k)
          | |- context [assoc ?k ?l] => destruct (assoc k l)
          end; simpl); try done.
  intros _. by rewrite <- !app_assoc.
Qed.

(** C10, as the code has it.  [on_fit_start] calls [setup_guidance] exactly
    once, in refinement mode as in any other; [on_validation_start] and
    [on_test_start] are exactly one call of [setup_guidance] when the
    controller is not in refinement mode and do nothing at all when it is.
    So in refinement mode a run that only validates and tests never calls
    [setup_guidance] and never constructs a guidance model, whereas a run
    that fits constructs it; and a training step that gets as far as its
    loss has queried the guidance model, in refinement mode too. *)
Theorem setup_guidance_schedule :
  ∀ s : System,
    (outcome on_fit_start s = Ok tt
     ∧ trace (after on_fit_start s)
       = trace s ++ NewPromptProcessor :: SetupGuidance
                 :: (if guidance s is Some _ then [] else [NewGuidance]))
    ∧ on_validation_start s
      = (if cfg_refinement (cfg s) then (Ok tt, s) else setup_guidance s)
    ∧ on_test_start s
      = (if cfg_refinement (cfg s) then (Ok tt, s) else setup_guidance s)
    ∧ trace (after setup_guidance s)
      = trace s ++ SetupGuidance
                :: (if guidance s is Some _ then [] else [NewGuidance])
    ∧ (∀ rs : list Request,
        cfg_refinement (cfg s) = true →
        forallb evaluation_only rs = true →
        guidance (after (run rs) s) = guidance s
        ∧ constructions (after (run rs) s) = constructions s
        ∧ setup_calls (after (run rs) s) = setup_calls s)
    ∧ ∀ batch : Batch,
        is_ok (outcome (guidance_term batch) s) →
        trace (after (guidance_term batch) s)
        = trace s ++ [Rendered; Encoded; GuidanceQueried].
Proof.
  intros s.
  destruct (on_fit_start_effect s) as (Ho & _ & Ht & _).
  destruct (setup_guidance_effect s) as (_ & _ & Ht' & _).
  split_and!; try done.
  - apply on_validation_start_effect.
  - apply on_test_start_effect.
  - intros rs Href Hrs.
    by destruct (run_evaluation_untouched rs s Href Hrs) as (_ & ? & ? & ?).
  - intros batch. apply guidance_term_trace.
Qed.

(** ** [forward] with decoding *)

(** One pixel row of two pixels and three channels, channels-last to
    channels-first. *)
Example permute_nhwc_nchw :
  permute [0; 3; 1; 2] (mkTensor [1; 2; 1; 3] [1; 2; 3; 4; 5; 6]%R)
  = Ok (mkTensor [1; 3; 2; 1] [1; 4; 2; 5; 3; 6]%R).
Proof. reflexivity. Qed.

(** Channels-first and back is the identity. *)
Example permute_round_trip :
  (let* x := permute [0; 3; 1; 2]
               (mkTensor [1; 2; 2; 3]
                         [1; 2; 3; 4; 5; 6; 7; 8; 9; 10; 11; 12]%R) in
   permute [0; 2; 3; 1] x)
  = Ok (mkTensor [1; 2; 2; 3] [1; 2; 3; 4; 5; 6; 7; 8; 9; 10; 11; 12]%R).
Proof. reflexivity. Qed.

(** A tensor that does not have four axes is refused. *)
Example permute_rank :
  permute [0; 3; 1; 2] (mkTensor [2; 3] [1; 2; 3; 4; 5; 6]%R)
  = Raise (RuntimeError "permute: dims do not match the tensor").
Proof. reflexivity. Qed.

(** C1.  When the render output has a ["comp_rgb"] entry, [forward] with
    [decode=True] returns the render output with one more entry,
    ["decoded_rgb"].  In refinement mode that entry is ["comp_rgb"] itself.
    Otherwise, with the guidance model constructed, it is what the model's
    latent decoder makes of ["comp_rgb"], handed over channels-first and
    brought back to channels-last. *)
Theorem forward_decode :
  ∀ (s : System) (batch : Batch) (comp_rgb : Tensor),
    renderer s batch !! "comp_rgb" = Some comp_rgb →
    (cfg_refinement (cfg s) = true →
       outcome (forward batch true) s
       = Ok (<["decoded_rgb" := comp_rgb]> (renderer s batch)))
    ∧ (cfg_refinement (cfg s) = false →
       ∀ (g : Guidance) (latents decoded : Tensor),
         guidance s = Some g →
         permute [0; 3; 1; 2] comp_rgb = Ok latents →
         permute [0; 2; 3; 1] (decode_latents g latents) = Ok decoded →
         outcome (forward batch true) s
         = Ok (<["decoded_rgb" := decoded]> (renderer s batch))).
Proof.
  intros s batch comp_rgb Hrgb. unfold outcome, forward.
  destruct s as [c ge ma ba re g pp sl st tr]. simpl in *. split.
  - intros Href. unfold bind, M_bind, mbind, lift, getitem. simpl.
    by rewrite Href, Hrgb.
  - intros Href g' latents decoded -> Hl Hd.
    unfold bind, M_bind, mbind, lift, getitem. simpl.
    rewrite Href, Hrgb. simpl. rewrite Hl. simpl. by rewrite Hd.
Qed.

(** ** The conditional terms of the training step *)

Lemma bind_congr {A B : Type} (m : M A) (k k' : A → M B) (s : System) :
  (∀ a, outcome m s = Ok a → k a (after m s) = k' a (after m s)) →
  (let* x := m in k x) s = (let* x := m in k' x) s.
Proof.
  unfold outcome, after, bind, M_bind, mbind.
  destruct (m s) as [[a|e] s1]; simpl; [|done]. intros H. by apply H.
Qed.

Lemma bind_run {A B : Type} (m m' : M A) (k : A → M B) (s : System) :
  m s = m' s → (let* x := m in k x) s = (let* x := m' in k x) s.
Proof. unfold bind, M_bind, mbind. by intros ->. Qed.

Lemma weight_run (name : string) (v : Schedule) (s : System) :
  assoc name (cfg_loss (cfg s)) = Some v →
  weight name s = (Ok (C (global_step s) v), s).
Proof.
  intros Hv. unfold weight, bind, M_bind, mbind, gets. simpl. by rewrite Hv.
Qed.

Lemma guidance_term_out (batch : Batch) (s : System)
    (out : gmap string Tensor) (loss : scalar) :
  outcome (guidance_term batch) s = Ok (out, loss) → out = renderer s batch.
Proof.
  unfold outcome, guidance_term, weight, getattr.
  unfold bind, M_bind, mbind, gets, emit, modify, lift, ret, raise. simpl.
  repeat (match goal with
          | |- context [match ?x with _ => _ end] => destruct x
          end; simpl); congruence.
Qed.

(** The state in which the terms after [guidance_term] run. *)
Lemma guidance_term_keeps (batch : Batch) (s : System) :
  cfg (after (guidance_term batch) s) = cfg s
  ∧ global_step (after (guidance_term batch) s) = global_step s.
Proof.
  destruct (appends_guidance_term (λ _, true) batch (λ _ _, eq_refl) s)
    as (? & _ & ? & _).
  done.
Qed.

Lemma orientation_term_skip (out : gmap string Tensor) (loss : scalar)
    (v : Schedule) (s : System) :
  assoc "lambda_orient" (cfg_loss (cfg s)) = Some v →
  ¬ (0 < C (global_step s) v)%R →
  orientation_term out loss s = no_term out loss s.
Proof.
  intros Hv Hle. unfold orientation_term.
  rewrite (bind_run _ (ret (C (global_step s) v))) by by apply weight_run.
  unfold bind, M_bind, mbind, ret. simpl. by rewrite decide_False.
Qed.

Lemma orientation_term_no_normal (out : gmap string Tensor) (loss : scalar)
    (v : Schedule) (s : System) :
  assoc "lambda_orient" (cfg_loss (cfg s)) = Some v →
  (0 < C (global_step s) v)%R →
  out !! "normal" = None →
  orientation_term out loss s = (Raise (ValueError no_normal), s).
Proof.
  intros Hv Hpos Hn. unfold orientation_term.
  rewrite (bind_run _ (ret (C (global_step s) v))) by by apply weight_run.
  unfold bind, M_bind, mbind, ret. simpl. rewrite decide_True by done.
  unfold contains. by rewrite Hn.
Qed.

Lemma orientation_term_no_t_dirs (out : gmap string Tensor) (loss : scalar)
    (v : Schedule) (s : System) :
  assoc "lambda_orient" (cfg_loss (cfg s)) = Some v →
  (0 < C (global_step s) v)%R →
  is_Some (out !! "normal") →
  out !! "t_dirs" = None →
  orientation_term out loss s
  = (Raise (KeyError (if out !! "weights" is Some _ then "t_dirs"
                      else "weights")), s).
Proof.
  intros Hv Hpos [n Hn] Ht. unfold orientation_term.
  rewrite (bind_run _ (ret (C (global_step s) v))) by by apply weight_run.
  unfold bind at 1, M_bind, mbind, ret. simpl. rewrite decide_True by done.
  unfold contains. rewrite Hn. simpl.
  unfold loss_orient, getitem. rewrite Hn, Ht.
  by destruct (out !! "weights") as [w|].
Qed.

(** An exception of the orientation term, after a [guidance_term] that
    went through, is the exception of the step. *)
Lemma training_step_raises_in_orientation (batch : Batch) (batch_idx : nat)
    (e : exn) (s : System) :
  is_ok (outcome (guidance_term batch) s) →
  (∀ loss, orientation_term (renderer s batch) loss
             (after (guidance_term batch) s)
           = (Raise e, after (guidance_term batch) s)) →
  training_step batch batch_idx s = (Raise e, after (guidance_term batch) s).
Proof.
  intros Hok Hrun.
  destruct (outcome (guidance_term batch) s) as [[out loss]|e'] eqn:Ho;
    [|done].
  apply guidance_term_out in Ho as Hout. subst out.
  unfold training_step, training_step_with.
  rewrite (bind_Ok _ _ _ _ Ho). cbv zeta. simpl fst. simpl snd.
  rewrite (bind_Raise _ _ _ e) by (unfold outcome; by rewrite Hrun).
  unfold after at 1. by rewrite Hrun.
Qed.

(** C3, as the code has it.  With a positive [lambda_orient], once the
    render, the prompt encoding and the guidance query have gone through, a
    render output without ["normal"] makes the step raise the validation
    error at once, nothing else computed or logged; a render output with
    ["normal"] but without ["t_dirs"] makes it fail at the same place with
    the [KeyError] of the missing entry, not with a validation error.  With
    a [lambda_orient] that is not positive the step is the step without the
    orientation term, whatever the render output holds. *)
Theorem orientation_term_validation :
  ∀ (s : System) (batch : Batch) (batch_idx : nat) (v : Schedule),
    assoc "lambda_orient" (cfg_loss (cfg s)) = Some v →
    ((0 < C (global_step s) v)%R →
     is_ok (outcome (guidance_term batch) s) →
     renderer s batch !! "normal" = None →
     outcome (training_step batch batch_idx) s = Raise (ValueError no_normal)
     ∧ trace (after (training_step batch batch_idx) s)
       = trace s ++ [Rendered; Encoded; GuidanceQueried])
    ∧ ((0 < C (global_step s) v)%R →
       is_ok (outcome (guidance_term batch) s) →
       is_Some (renderer s batch !! "normal") →
       renderer s batch !! "t_dirs" = None →
       ∃ k, (k = "weights" ∨ k = "t_dirs")
            ∧ outcome (training_step batch batch_idx) s = Raise (KeyError k)
            ∧ trace (after (training_step batch batch_idx) s)
              = trace s ++ [Rendered; Encoded; GuidanceQueried])
    ∧ (¬ (0 < C (global_step s) v)%R →
       training_step batch batch_idx s
       = training_step_with no_term shape_term batch batch_idx s).
Proof.
  intros s batch batch_idx v Hv.
  destruct (guidance_term_keeps batch s) as (Hcfg & Hstep).
  split_and!.
  - intros Hpos Hok Hn. pose proof (guidance_term_trace batch s Hok) as Ht.
    unfold outcome, after at 1.
    rewrite (training_step_raises_in_orientation batch batch_idx
               (ValueError no_normal)); [done..|].
    intros loss. apply (orientation_term_no_normal _ _ v);
      [by rewrite Hcfg|by rewrite Hstep|done].
  - intros Hpos Hok Hn Hd. pose proof (guidance_term_trace batch s Hok) as Ht.
    exists (if renderer s batch !! "weights" is Some _ then "t_dirs"
            else "weights").
    split; [by destruct (renderer s batch !! "weights"); auto|].
    unfold outcome, after at 1.
    rewrite (training_step_raises_in_orientation batch batch_idx
               (KeyError (if renderer s batch !! "weights" is Some _
                          then "t_dirs" else "weights"))); [done..|].
    intros loss. apply (orientation_term_no_t_dirs _ _ v);
      [by rewrite Hcfg|by rewrite Hstep|done..].
  - intros Hle. unfold training_step, training_step_with.
    apply bind_congr. intros [out loss] _. cbv zeta. simpl fst. simpl snd.
    apply bind_run. apply (orientation_term_skip _ _ v).
    + by rewrite Hcfg.
    + by rewrite Hstep.
Qed.

Lemma shape_term_skip (out : gmap string Tensor) (loss : scalar)
    (v : Schedule) (points : Tensor) (rest : list nat) (s : System) :
  assoc "lambda_shape" (cfg_loss (cfg s)) = Some v →
  out !! "points" = Some points →
  shape points = 0 :: rest →
  shape_term out loss s = no_term out loss s.
Proof.
  intros Hv Hp Hz. unfold shape_term.
  rewrite (bind_run _ (ret (C (global_step s) v))) by by apply weight_run.
  unfold bind at 1, M_bind, mbind, ret. simpl.
  destruct (decide (0 < C (global_step s) v)%R); [|done].
  unfold getitem. rewrite Hp.
  unfold bind, M_bind, mbind, lift, shape0. simpl. by rewrite Hz.
Qed.

(** When the condition of line 123 does not hold, [shape_term] leaves no
    trace: it returns the running loss, or fails on the way to the
    condition. *)
Lemma shape_term_not_due (out : gmap string Tensor) (loss : scalar)
    (s : System) :
  shape_due s out = false →
  shape_term out loss s = muted (shape_term out loss) s.
Proof.
  unfold shape_due, muted, outcome, shape_term, weight, getitem, shape0.
  destruct s as [c ge ma ba re g pp sl st tr]. simpl.
  unfold bind, M_bind, mbind, gets, lift, ret, raise. simpl.
  destruct (assoc "lambda_shape" (cfg_loss c)) as [v|]; simpl; [|done].
  destruct (decide (0 < C st v)%R) as [Hpos|Hle]; simpl; [|done].
  rewrite bool_decide_true by done. simpl.
  destruct (out !! "points") as [points|]; simpl; [|done].
  destruct (shape points) as [|[|n] rest]; simpl; done.
Qed.

(** When the condition holds and a shape prior is configured, the evaluator
    is invoked on the sample points and densities. *)
Lemma shape_term_due (out : gmap string Tensor) (loss : scalar)
    (v : Schedule) (points density : Tensor) (evaluate : ShapeLoss)
    (n : nat) (rest : list nat) (s : System) :
  assoc "lambda_shape" (cfg_loss (cfg s)) = Some v →
  (0 < C (global_step s) v)%R →
  out !! "points" = Some points →
  out !! "density" = Some density →
  shape points = S n :: rest →
  shape_loss s = Some evaluate →
  shape_term out loss s
  = (Ok (sadd loss (smul (evaluate points density)
                         (Finite (C (global_step s) v)))),
     record (Logged "train/loss_shape" (evaluate points density))
            (record ShapeLossEvaluated s)).
Proof.
  intros Hv Hpos Hp Hd Hs He.
  unfold shape_term, weight, getattr, getitem, shape0.
  destruct s as [c ge ma ba re g pp sl st tr]. simpl in *. subst sl.
  unfold bind, M_bind, mbind, gets, lift, ret, raise, log, emit, modify.
  simpl. rewrite Hv. simpl. rewrite decide_True by done.
  rewrite Hp. simpl. rewrite Hs. simpl. rewrite Hd. simpl. by rewrite Hv.
Qed.

Lemma appends_muted (allowed : Event → bool) {A : Type} (m : M A) :
  appends allowed (muted m).
Proof. intros s. split_and!; [done..|]. exists []. by rewrite app_nil_r. Qed.

(** Two steps agree when their shape terms agree on the render output, in
    every state with the configuration and the global step of the start. *)
Lemma training_step_with_shape
    (shape shape' : gmap string Tensor → scalar → M scalar)
    (batch : Batch) (batch_idx : nat) (s : System) :
  (∀ loss s', cfg s' = cfg s → global_step s' = global_step s →
              shape (renderer s batch) loss s'
              = shape' (renderer s batch) loss s') →
  training_step_with orientation_term shape batch batch_idx s
  = training_step_with orientation_term shape' batch batch_idx s.
Proof.
  intros Hsh. unfold training_step_with.
  destruct (guidance_term_keeps batch s) as (Hcfg & Hstep).
  apply bind_congr. intros [out loss] Ho. cbv zeta. simpl fst. simpl snd.
  apply guidance_term_out in Ho as ->.
  revert Hcfg Hstep. generalize (after (guidance_term batch) s). intros s1 H1 H1'.
  apply bind_congr. intros loss1 _.
  destruct (appends_orientation_term (λ _, true) (renderer s batch) loss
              (λ _ _, eq_refl) s1) as (H2 & _ & H2' & _).
  rewrite H1 in H2. rewrite H1' in H2'. revert H2 H2'.
  generalize (after (orientation_term (renderer s batch) loss) s1).
  intros s2 H2 H2'.
  apply bind_congr. intros loss2 _.
  destruct (appends_sparsity_term (λ _, true) (renderer s batch) loss1
              (λ _ _, eq_refl) s2) as (H3 & _ & H3' & _).
  rewrite H2 in H3. rewrite H2' in H3'. revert H3 H3'.
  generalize (after (sparsity_term (renderer s batch) loss1) s2).
  intros s3 H3 H3'.
  apply bind_congr. intros loss3 _.
  destruct (appends_opaque_term (λ _, true) (renderer s batch) loss2
              (λ _ _, eq_refl) s3) as (H4 & _ & H4' & _).
  rewrite H3 in H4. rewrite H3' in H4'.
  apply bind_run. by apply Hsh.
Qed.

(** C8.  When the render output holds zero sample points, the shape term
    is not computed, whatever the weight [lambda_shape] configured: the
    step is the step without the shape term, and the shape-loss evaluator
    is not invoked.  In any step at all, the evaluator is invoked only when
    [lambda_shape] is positive and the render output holds at least one
    sample point. *)
Theorem shape_term_needs_points :
  ∀ (s : System) (batch : Batch) (batch_idx : nat),
    (∀ (v : Schedule) (points : Tensor) (rest : list nat),
       assoc "lambda_shape" (cfg_loss (cfg s)) = Some v →
       renderer s batch !! "points" = Some points →
       shape points = 0 :: rest →
       training_step batch batch_idx s
       = training_step_with orientation_term no_term batch batch_idx s
       ∧ shape_evaluations (after (training_step batch batch_idx) s)
         = shape_evaluations s)
    ∧ (shape_evaluations (after (training_step batch batch_idx) s)
       ≠ shape_evaluations s →
       ∃ (v : Schedule) (points : Tensor) (n : nat) (rest : list nat),
         assoc "lambda_shape" (cfg_loss (cfg s)) = Some v
         ∧ (0 < C (global_step s) v)%R
         ∧ renderer s batch !! "points" = Some points
         ∧ shape points = S n :: rest).
Proof.
  intros s batch batch_idx.
  assert (Hquiet : ∀ shape,
             (∀ out loss, appends step_event (shape out loss)) →
             training_step batch batch_idx s
             = training_step_with orientation_term shape batch batch_idx s →
             shape_evaluations (after (training_step batch batch_idx) s)
             = shape_evaluations s).
  { intros shape Hsh Heq. unfold after. rewrite Heq.
    destruct (appends_training_step_with step_event orientation_term shape
                batch batch_idx (λ _ H, H)
                (λ out loss, appends_orientation_term _ out loss (λ _ H, H))
                Hsh s)
      as (_ & _ & _ & evs & Ht & Hevs).
    unfold after in Ht. unfold shape_evaluations. rewrite Ht, occurrences_app.
    rewrite (occurrences_none step_event is_ShapeLossEvaluated evs);
      [lia|by intros []|done]. }
  split.
  - intros v points rest Hv Hp Hz.
    assert (Heq : training_step batch batch_idx s
                  = training_step_with orientation_term no_term
                      batch batch_idx s).
    { apply training_step_with_shape. intros loss s' Hc Hs.
      apply (shape_term_skip _ _ v points rest); [by rewrite Hc|done..]. }
    split; [done|]. apply (Hquiet no_term); [|done].
    intros out loss. apply appends_ret.
  - intros Hne. destruct (shape_due s (renderer s batch)) eqn:Hdue.
    + unfold shape_due in Hdue.
      destruct (assoc "lambda_shape" (cfg_loss (cfg s))) as [v|]; [|done].
      apply andb_true_iff in Hdue as [Hpos%bool_decide_eq_true Hpts].
      destruct (renderer s batch !! "points") as [points|]; [|done].
      destruct (shape points) as [|[|n] rest] eqn:Hshape; try done.
      by exists v, points, n, rest.
    + exfalso. apply Hne.
      apply (Hquiet (λ out loss, muted (shape_term out loss))).
      * intros out loss. apply appends_muted.
      * apply training_step_with_shape. intros loss s' Hc Hs.
        apply shape_term_not_due. unfold shape_due in *.
        by rewrite Hc, Hs.
Qed.

(** ** Sums over tensors *)

Section Sums.

#[local] Open Scope R_scope.

Lemma big_sum_ext (n : nat) (f g : nat → R) :
  (∀ i, (i < n)%nat → f i = g i) → big_sum n f = big_sum n g.
Proof.
  induction n as [|n IH]; intros H; simpl; [done|].
  rewrite IH, (H n) by (intros; auto with lia). done.
Qed.

Lemma big_sum_extend (m n : nat) (f : nat → R) :
  (m ≤ n)%nat → (∀ i, (m ≤ i)%nat → f i = 0) → big_sum n f = big_sum m f.
Proof.
  intros Hmn Hz. induction Hmn as [|n Hmn IH]; [done|].
  simpl. rewrite IH, (Hz n) by done. lra.
Qed.

Lemma Rsum_app (l1 l2 : list R) : Rsum (l1 ++ l2) = Rsum l1 + Rsum l2.
Proof.
  unfold Rsum. induction l1 as [|x l1 IH]; simpl; [lra|]. rewrite IH. lra.
Qed.

Lemma Rsum_big_sum (l : list R) :
  Rsum l = big_sum (length l) (λ i, nth i l 0).
Proof.
  induction l as [|x l IH] using rev_ind; [done|].
  rewrite Rsum_app, length_app, Nat.add_1_r. simpl.
  rewrite app_nth2, Nat.sub_diag by lia. simpl.
  rewrite IH. unfold Rsum. simpl. f_equal; [|lra].
  apply big_sum_ext. intros i Hi. by rewrite app_nth1.
Qed.

Lemma Rsum_nth (n : nat) (l : list R) :
  (length l ≤ n)%nat → Rsum l = big_sum n (λ i, nth i l 0).
Proof.
  intros Hn. rewrite Rsum_big_sum. symmetry.
  apply big_sum_extend; [done|]. intros i Hi. by apply nth_overflow.
Qed.

Lemma nth_zip_with_Rmult (a b : list R) (k : nat) :
  nth k (zip_with Rmult a b) 0 = nth k a 0 * nth k b 0.
Proof.
  revert b k. induction a as [|x a IH]; intros [|y b] [|k]; simpl;
    try lra. apply IH.
Qed.

Lemma nth_fmap (f : R → R) (l : list R) (k : nat) :
  (k < length l)%nat → nth k (f <$> l) 0 = f (nth k l 0).
Proof.
  revert k. induction l as [|x l IH]; intros [|k] Hk; simpl in *;
    try lia; [done|]. apply IH. lia.
Qed.

Lemma rows_length (d n : nat) (l : list R) : length (rows d n l) = n.
Proof. revert l. induction n as [|n IH]; intros l; simpl; [done|]. by rewrite IH. Qed.

Lemma nth_rows (d n : nat) (l : list R) (i : nat) :
  (i < n)%nat → nth i (rows d n l) [] = take d (drop (i * d) l).
Proof.
  revert l i. induction n as [|n IH]; intros l [|i] Hi; simpl; try lia.
  - done.
  - rewrite IH by lia. by rewrite drop_drop.
Qed.

Lemma Rsum_take_drop (d k : nat) (l : list R) :
  Rsum (take d (drop k l)) = big_sum d (λ j, nth (k + j) l 0).
Proof.
  rewrite (Rsum_nth d) by (rewrite length_take; lia).
  apply big_sum_ext. intros j Hj.
  rewrite !nth_lookup, lookup_take_lt, lookup_drop by done. done.
Qed.

Lemma nth_row_sums (d n : nat) (l : list R) (i : nat) :
  (i < n)%nat →
  nth i (Rsum <$> rows d n l) 0 = big_sum d (λ j, nth (i * d + j) l 0).
Proof.
  intros Hi. rewrite !nth_lookup, list_lookup_fmap.
  rewrite <- (Rsum_take_drop d (i * d) l), <- (nth_rows d n l i Hi).
  rewrite nth_lookup.
  destruct (rows d n l !! i) as [row|] eqn:Hrow; [done|].
  apply lookup_ge_None in Hrow. rewrite rows_length in Hrow. lia.
Qed.

Lemma count_below_ext (n : nat) (p q : nat → bool) :
  (∀ i, (i < n)%nat → p i = q i) → count_below n p = count_below n q.
Proof.
  induction n as [|n IH]; intros H; simpl; [done|].
  rewrite IH, (H n) by (intros; auto with lia). done.
Qed.

Lemma count_pos_positive_count (t : Tensor) : count_pos t = positive_count t.
Proof.
  unfold count_pos, positive_count, numel, entry.
  induction (data t) as [|x l IH] using rev_ind; [done|].
  rewrite filter_app, !length_app, Nat.add_1_r. simpl.
  rewrite app_nth2, Nat.sub_diag by lia. simpl.
  rewrite IH. f_equal.
  - apply count_below_ext. intros i Hi. by rewrite app_nth1.
  - rewrite filter_cons, filter_nil. by case_decide; case_bool_decide.
Qed.

End Sums.

(** ** The orientation loss *)

(** [dot] of two rows of three entries keeps the last axis, with size 1. *)
Example dot_rows :
  dot (mkTensor [2; 3] [1; 2; 3; 4; 5; 6]%R)
      (mkTensor [2; 3] [1; 0; 0; 0; 1; 0]%R)
  = Ok (mkTensor [2; 1]
          [1 * 1 + (2 * 0 + (3 * 0 + 0));
           4 * 0 + (5 * 1 + (6 * 0 + 0))]%R).
Proof. reflexivity. Qed.

Lemma loss_orient_value (out : gmap string Tensor) (n d : nat)
    (weights normal t_dirs opacity : Tensor) :
  out !! "weights" = Some weights →
  out !! "normal" = Some normal →
  out !! "t_dirs" = Some t_dirs →
  out !! "opacity" = Some opacity →
  shape weights = [n; 1] →
  shape normal = [n; d] →
  shape t_dirs = [n; d] →
  loss_orient out
  = Ok (div_count (orientation_sum n d weights normal t_dirs)
                  (positive_count opacity)).
Proof.
  intros Hw Hn Ht Ho Sw Sn St.
  unfold loss_orient, getitem. rewrite Hw, Hn, Ht, Ho.
  unfold bind, result_bind, rbind, dot, mul. rewrite Sn, St.
  rewrite decide_True by done.
  unfold bind, result_bind, rbind, sum_last, detach. simpl shape.
  rewrite Sw. simpl reverse. simpl app. rewrite decide_True by done.
  rewrite count_pos_positive_count. do 2 f_equal.
  unfold sum, orientation_sum, prod_shape. simpl data. simpl foldr.
  rewrite Nat.mul_1_r.
  rewrite (Rsum_nth n).
  2:{ rewrite length_zip_with, !length_fmap, rows_length. lia. }
  apply big_sum_ext. intros i Hi. rewrite nth_zip_with_Rmult.
  rewrite !nth_fmap by (rewrite ?length_fmap, rows_length; lia).
  rewrite nth_row_sums by done. unfold entry, positive_part, row_dot.
  rewrite (big_sum_ext d _
             (λ j, nth (i * d + j) (data normal) 0
                   * nth (i * d + j) (data t_dirs) 0)%R)
    by (intros j Hj; apply nth_zip_with_Rmult).
  rewrite Rmax_comm. replace 0.0%R with 0%R by lra. done.
Qed.

(** C4.  With a positive [lambda_orient] and per-sample outputs of the
    shapes the renderer gives them (weights [n x 1], normals and ray
    directions [n x d]), the orientation loss is the sum over all samples of
    the sample weight times the squared positive part of the dot product of
    normal and ray direction, divided by the count of opacity entries that
    exceed zero; the step logs it and adds it, times [lambda_orient], to the
    running loss.  The weight enters by its value alone ([detach]). *)
Theorem orientation_loss_formula :
  ∀ (s : System) (out : gmap string Tensor) (loss : scalar) (v : Schedule)
    (n d : nat) (weights normal t_dirs opacity : Tensor),
    assoc "lambda_orient" (cfg_loss (cfg s)) = Some v →
    (0 < C (global_step s) v)%R →
    out !! "weights" = Some weights →
    out !! "normal" = Some normal →
    out !! "t_dirs" = Some t_dirs →
    out !! "opacity" = Some opacity →
    shape weights = [n; 1] →
    shape normal = [n; d] →
    shape t_dirs = [n; d] →
    0 < positive_count opacity →
    let l := Finite (orientation_sum n d weights normal t_dirs
                     / INR (positive_count opacity)) in
    loss_orient out = Ok l
    ∧ orientation_term out loss s
      = (Ok (sadd loss (smul l (Finite (C (global_step s) v)))),
         record (Logged "train/loss_orient" l) s).
Proof.
  intros s out loss v n d weights normal t_dirs opacity
    Hv Hpos Hw Hn Ht Ho Sw Sn St Hcount l.
  assert (Hl : loss_orient out = Ok l).
  { rewrite (loss_orient_value out n d weights normal t_dirs opacity) by done.
    unfold l. by destruct (positive_count opacity); [lia|]. }
  split; [done|]. unfold orientation_term.
  rewrite (bind_run _ (ret (C (global_step s) v))) by by apply weight_run.
  unfold bind at 1, M_bind, mbind, ret. simpl.
  rewrite decide_True by done. unfold contains. rewrite Hn. simpl.
  rewrite Hl. unfold bind, M_bind, mbind, lift, log, emit, modify. simpl.
  rewrite weight_run with (v := v) by done. done.
Qed.

(** C5.  The orientation loss divides by the count of positive opacity
    entries without a guard.  There is a render output with ["normal"] and
    ["t_dirs"] present and no opacity above zero; on it the division by a
    zero count is reached, so that the orientation loss is not a finite
    number, and a step with a positive [lambda_orient] logs it as such and
    loses its running loss to it.  The same holds of every render output
    whose orientation loss is computed while no opacity exceeds zero. *)
Theorem orientation_division_by_zero :
  ∃ out : gmap string Tensor,
    is_Some (out !! "normal")
    ∧ is_Some (out !! "t_dirs")
    ∧ (∃ opacity, out !! "opacity" = Some opacity ∧ count_pos opacity = 0)
    ∧ loss_orient out = Ok NonFinite
    ∧ (∀ (s : System) (loss : scalar) (v : Schedule),
         assoc "lambda_orient" (cfg_loss (cfg s)) = Some v →
         (0 < C (global_step s) v)%R →
         orientation_term out loss s
         = (Ok NonFinite, record (Logged "train/loss_orient" NonFinite) s))
    ∧ (∀ (out' : gmap string Tensor) (opacity : Tensor) (l : scalar),
         out' !! "opacity" = Some opacity →
         count_pos opacity = 0 →
         loss_orient out' = Ok l → l = NonFinite).
Proof.
  exists sparse_scene.
  assert (Hcount : count_pos (mkTensor [1; 1; 1; 1] [0%R]) = 0).
  { unfold count_pos. simpl. rewrite filter_cons, decide_False by lra. done. }
  assert (Hl : loss_orient sparse_scene = Ok NonFinite).
  { rewrite (loss_orient_value sparse_scene 1 3
               (mkTensor [1; 1] [0%R]) (mkTensor [1; 3] [0; 0; 1]%R)
               (mkTensor [1; 3] [0; 0; 1]%R) (mkTensor [1; 1; 1; 1] [0%R]))
      by done.
    by rewrite <- count_pos_positive_count, Hcount. }
  split_and!; [by eexists..| |done| |].
  - by eexists.
  - intros s loss v Hv Hpos. unfold orientation_term.
    rewrite (bind_run _ (ret (C (global_step s) v))) by by apply weight_run.
    unfold bind at 1, M_bind, mbind, ret. simpl.
    rewrite decide_True by done.
    change (contains sparse_scene "normal") with true. simpl.
    rewrite Hl. unfold bind, M_bind, mbind, lift, log, emit, modify. simpl.
    rewrite weight_run with (v := v) by done. by destruct loss.
  - intros out' opacity l Ho Hz. unfold loss_orient, getitem. rewrite Ho.
    unfold bind, result_bind, rbind.
    repeat (match goal with
            | |- context [match ?x with _ => _ end] => destruct x
            end; try done).
    rewrite Hz. simpl. congruence.
Qed.

(** ** The sparsity regularizer *)

Section Sparsity.

#[local] Open Scope R_scope.

Lemma big_sum_lower (n : nat) (f : nat → R) (c : R) :
  (∀ i, (i < n)%nat → c <= f i) → INR n * c <= big_sum n f.
Proof.
  induction n as [|n IH]; intros H.
  - simpl. lra.
  - rewrite S_INR. simpl. specialize (H n (Nat.lt_succ_diag_r n)) as Hn.
    assert (INR n * c <= big_sum n f) by (apply IH; intros; auto with lia).
    lra.
Qed.

Lemma big_sum_const (n : nat) (f : nat → R) (c : R) :
  (∀ i, (i < n)%nat → f i = c) → big_sum n f = INR n * c.
Proof.
  induction n as [|n IH]; intros H.
  - simpl. lra.
  - rewrite S_INR. simpl. rewrite IH, (H n) by (intros; auto with lia). lra.
Qed.




Lemma loss_sparsity_value (out : gmap string Tensor) (opacity : Tensor) :
  out !! "opacity" = Some opacity →
  (0 < numel opacity)%nat →
  loss_sparsity out = Ok (Finite (sparsity_mean opacity)).
Proof.
  intros Ho Hn. unfold loss_sparsity, getitem. rewrite Ho.
  unfold bind, result_bind, rbind, mean, sum, sparsity_mean, numel in *.
  simpl. rewrite !length_fmap.
  destruct (length (data opacity)) as [|n] eqn:Hlen; [lia|].
  unfold div_count. do 3 f_equal.
  rewrite (Rsum_nth (S n)) by (rewrite !length_fmap; lia).
  apply big_sum_ext. intros i Hi.
  rewrite !nth_fmap by (rewrite ?length_fmap; lia). done.
Qed.



End Sparsity.

(** ** The opacity-binarization regularizer *)

Section Binarization.

#[local] Open Scope R_scope.











(** The cases of a clamped value: below, inside or above the interval. *)
Ltac clamp_cases :=
  unfold clamped, Rmax;
  repeat (match goal with
          | |- context [Rle_dec ?a ?b] => destruct (Rle_dec a b)
          end);
  unfold Rmin;
  repeat (match goal with
          | |- context [Rle_dec ?a ?b] => destruct (Rle_dec a b)
          end);
  lra.

Lemma clamped_bounds (x : R) : 1.0e-3 <= clamped x <= 1 - 1.0e-3.
Proof.
  clamp_cases.
Qed.








Lemma loss_opaque_value (out : gmap string Tensor) (opacity : Tensor) :
  out !! "opacity" = Some opacity →
  (0 < numel opacity)%nat →
  loss_opaque out = Ok (Finite (opaque_mean opacity)).
Proof.
  intros Ho Hn. unfold loss_opaque, getitem. rewrite Ho.
  unfold bind, result_bind, rbind, binary_cross_entropy.
  rewrite decide_True by done. rewrite decide_True.
  2:{ unfold clamp, pointwise. simpl. apply Forall_fmap, Forall_true.
      intros x. pose proof (clamped_bounds x) as Hx. unfold clamped in Hx.
      simpl. lra. }
  unfold mean, sum, opaque_mean, numel in *. simpl.
  rewrite length_zip_with, !length_fmap, Nat.min_id.
  destruct (length (data opacity)) as [|n] eqn:Hlen; [lia|].
  unfold div_count. do 3 f_equal.
  rewrite (Rsum_nth (S n)) by (rewrite length_zip_with, !length_fmap; lia).
  apply big_sum_ext. intros i Hi.
  unfold entry. rewrite !nth_lookup, lookup_zip_with, list_lookup_fmap.
  destruct (data opacity !! i) as [x|] eqn:Hx; [done|].
  apply lookup_ge_None in Hx. lia.
Qed.










End Binarization.

(** * Further properties *)

(** ** The checkpoint filter *)

Lemma filter_state_dict_idempotent (d : gmap string Tensor) :
  filter_state_dict (filter_state_dict d) = filter_state_dict d.
Proof.
  apply map_eq; intros k.
  rewrite !filter_state_dict_lookup.
  by destruct (kept k).
Qed.

Lemma filter_state_dict_subseteq (d : gmap string Tensor) :
  filter_state_dict d ⊆ d.
Proof. unfold filter_state_dict. apply map_filter_subseteq. Qed.

(** A name has the top-level segment [p], a segment without a dot, exactly
    when it is [p] or starts with [p] and a dot. *)
Lemma first_segment_prefix (p k : string) :
  first_segment p = p →
  first_segment k = p ↔ k = p ∨ startswith (p +:+ ".") k = true.
Proof.
  revert k; induction p as [|a p IH]; intros k Hp.
  - change ("" +:+ ".") with ".".
    destruct k as [|c k]; cbn [first_segment startswith].
    + split; [by left | by intros [|]].
    + rewrite (Ascii.eqb_sym c "."), andb_true_r.
      destruct (Ascii.eqb_spec "." c) as [<-|Hc].
      * split; [by right | done].
      * split; [done | by intros [|]].
  - cbn [first_segment] in Hp.
    destruct (Ascii.eqb_spec a ".") as [|Ha]; [done|].
    injection Hp as Hp.
    change (String a p +:+ ".") with (String a (p +:+ ".")).
    destruct k as [|c k]; cbn [first_segment startswith].
    + split; [done | by intros [|]].
    + destruct (Ascii.eqb_spec c ".") as [->|Hc].
      * split; [done | intros [H|H]; [congruence|]].
        destruct (Ascii.eqb_spec a "."); done.
      * destruct (Ascii.eqb_spec a c) as [<-|Hac]; cbn [andb].
        -- pose proof (IH k Hp) as Hk.
           split.
           ++ intros [= H]. apply Hk in H as [->|H]; [by left | by right].
           ++ intros [[= ->]|H]; f_equal; apply Hk; [by left | by right].
        -- split; [by intros [= ? _] | intros [[= ? _]|]; done].
Qed.

(** X1.  Filtering a checkpoint twice is filtering it once: on every
    checkpoint, [on_save_checkpoint] applied to its own result gives that
    result again, and fails as the first call does when that one fails. *)
Theorem on_save_checkpoint_idempotent :
  ∀ checkpoint : gmap string CheckpointValue,
    (let* saved := on_save_checkpoint checkpoint in on_save_checkpoint saved)
    = on_save_checkpoint checkpoint.
Proof.
  intros checkpoint.
  unfold on_save_checkpoint, getitem.
  destruct (checkpoint !! "state_dict") as [[d|x]|] eqn:Hd;
    unfold bind, result_bind, rbind; try done.
  rewrite lookup_insert_eq, insert_insert_eq.
  by rewrite filter_state_dict_idempotent.
Qed.

(** X2.  [on_save_checkpoint] touches nothing but the state dictionary: a
    checkpoint without the entry ["state_dict"] is rejected with the
    [KeyError] of that key; on success every other entry of the checkpoint
    is as it was, and the saved state dictionary is part of the original
    one, so no weight is altered or added. *)
Theorem on_save_checkpoint_frame :
  ∀ checkpoint : gmap string CheckpointValue,
    (checkpoint !! "state_dict" = None →
     on_save_checkpoint checkpoint = Raise (KeyError "state_dict"))
    ∧ ∀ saved : gmap string CheckpointValue,
        on_save_checkpoint checkpoint = Ok saved →
        (∀ k, k ≠ "state_dict" → saved !! k = checkpoint !! k)
        ∧ ∃ d d', checkpoint !! "state_dict" = Some (StateDict d)
                  ∧ saved !! "state_dict" = Some (StateDict d')
                  ∧ d' ⊆ d.
Proof.
  intros checkpoint; split.
  - intros Hnone. unfold on_save_checkpoint, getitem. by rewrite Hnone.
  - intros saved. unfold on_save_checkpoint, getitem.
    destruct (checkpoint !! "state_dict") as [[d|x]|] eqn:Hd;
      unfold bind, result_bind, rbind; try done.
    intros [= <-]; split.
    + intros k Hk. by rewrite lookup_insert_ne.
    + exists d, (filter_state_dict d).
      rewrite lookup_insert_eq.
      split_and!; [done..|apply filter_state_dict_subseteq].
Qed.

(** X3.  Which weights the checkpoint filter removes, by their names: those
    named [guidance] or [prompt_processor] and those whose name starts with
    [guidance.] or [prompt_processor.]; every other weight is kept with its
    value - also one whose name merely starts with the letters of
    [guidance], or that has [guidance] as a later segment. *)
Theorem filter_state_dict_by_prefix :
  ∀ (d : gmap string Tensor) (k : string),
    (filter_state_dict d !! k
     = if bool_decide (k = "guidance" ∨ k = "prompt_processor")
          || startswith "guidance." k
          || startswith "prompt_processor." k
       then None else d !! k)
    ∧ ∀ t : Tensor,
        filter_state_dict
          (<["guidance_scale.w" := t]> (<["geometry.guidance.w" := t]> ∅))
        = <["guidance_scale.w" := t]> (<["geometry.guidance.w" := t]> ∅).
Proof.
  intros d k; split.
  - rewrite filter_state_dict_lookup.
    pose proof (kept_spec k) as Hk.
    pose proof (first_segment_prefix "guidance" k eq_refl) as Hg.
    pose proof (first_segment_prefix "prompt_processor" k eq_refl) as Hp.
    change ("guidance" +:+ ".") with "guidance." in Hg.
    change ("prompt_processor" +:+ ".") with "prompt_processor." in Hp.
    destruct (kept k).
    + destruct Hk as [Hk _]. destruct (Hk eq_refl) as [Hnp Hng].
      case_bool_decide as Hb.
      * destruct Hb as [->| ->]; [by destruct Hng | by destruct Hnp].
      * destruct (startswith "guidance." k) eqn:E1.
        { destruct Hng. apply Hg. by right. }
        destruct (startswith "prompt_processor." k) eqn:E2; [|done].
        destruct Hnp. apply Hp. by right.
    + case_bool_decide as Hb; [done|].
      destruct (startswith "guidance." k) eqn:E1; [done|].
      destruct (startswith "prompt_processor." k) eqn:E2; [done|].
      assert (first_segment k ≠ "prompt_processor"
              ∧ first_segment k ≠ "guidance") as H; [|by apply Hk in H].
      split.
      * intros H. apply Hp in H as [->|H]; [|congruence].
        apply Hb. by right.
      * intros H. apply Hg in H as [->|H]; [|congruence].
        apply Hb. by left.
  - intros t. apply map_eq; intros j.
    rewrite filter_state_dict_lookup.
    destruct (kept j) eqn:Hj; [done|].
    destruct (decide (j = "guidance_scale.w")) as [->|H1]; [done|].
    destruct (decide (j = "geometry.guidance.w")) as [->|H2]; [done|].
    by rewrite !lookup_insert_ne.
Qed.

(** ** Methods that assign no attribute *)

Lemma with_trace_same (s : System) : with_trace (trace s) s = s.
Proof. by destruct s. Qed.

Lemma only_emits_ret (allowed : Event → bool) {A : Type} (a : A) :
  only_emits allowed (ret a).
Proof.
  intros s; exists []. by rewrite app_nil_r, with_trace_same.
Qed.

Lemma only_emits_raise (allowed : Event → bool) {A : Type} (e : exn) :
  only_emits allowed (@raise A e).
Proof.
  intros s; exists []. by rewrite app_nil_r, with_trace_same.
Qed.

Lemma only_emits_lift (allowed : Event → bool) {A : Type} (r : result A) :
  only_emits allowed (lift r).
Proof.
  intros s; exists []. by rewrite app_nil_r, with_trace_same.
Qed.

Lemma only_emits_gets (allowed : Event → bool) {A : Type} (f : System → A) :
  only_emits allowed (gets f).
Proof.
  intros s; exists []. by rewrite app_nil_r, with_trace_same.
Qed.

Lemma only_emits_emit (allowed : Event → bool) (e : Event) :
  allowed e = true → only_emits allowed (emit e).
Proof.
  intros He s; exists [e]; split; [done|].
  simpl. by rewrite He.
Qed.

Lemma only_emits_bind (allowed : Event → bool) {A B : Type}
    (m : M A) (k : A → M B) :
  only_emits allowed m → (∀ a, only_emits allowed (k a)) →
  only_emits allowed (let* a := m in k a).
Proof.
  intros Hm Hk s.
  rewrite after_bind.
  destruct (Hm s) as (evs & Hs & Hevs).
  destruct (outcome m s) as [a|e]; [|by exists evs].
  destruct (Hk a (after m s)) as (evs' & Hs' & Hevs').
  exists (evs ++ evs'); split.
  - rewrite Hs', Hs. unfold with_trace; simpl. by rewrite app_assoc.
  - rewrite forallb_app. by rewrite Hevs, Hevs'.
Qed.

Create HintDb emits.
#[local] Hint Resolve only_emits_ret only_emits_raise only_emits_lift
  only_emits_gets : emits.

Ltac emits_step :=
  first
    [ apply only_emits_bind; [|intros ?]
    | solve [auto with emits]
    | apply only_emits_emit; reflexivity
    | match goal with
      | |- only_emits _ (match ?x with _ => _ end) => destruct x
      end ].

Lemma only_emits_getattr (allowed : Event → bool) {A : Type}
    (f : System → option A) (name : string) :
  only_emits allowed (getattr f name).
Proof. unfold getattr. repeat emits_step. Qed.

Lemma only_emits_weight (allowed : Event → bool) (name : string) :
  only_emits allowed (weight name).
Proof. unfold weight. repeat emits_step. Qed.

#[local] Hint Resolve only_emits_getattr only_emits_weight : emits.

Lemma only_emits_log_params (allowed : Event → bool) (step : nat)
    (items : list (string * Schedule)) :
  (∀ name v, allowed (Logged name v) = true) →
  only_emits allowed (log_params step items).
Proof.
  intros Hlog. induction items as [|[name value] items IH]; simpl.
  - apply only_emits_ret.
  - apply only_emits_bind; [|done].
    apply only_emits_emit, Hlog.
Qed.

Lemma only_emits_weaken (allowed allowed' : Event → bool) {A : Type}
    (m : M A) :
  (∀ e, allowed e = true → allowed' e = true) →
  only_emits allowed m → only_emits allowed' m.
Proof.
  intros Hsub Hm s.
  destruct (Hm s) as (evs & Hs & Hevs).
  exists evs; split; [done|].
  apply forallb_forall. intros e He.
  apply Hsub. by eapply forallb_forall in Hevs.
Qed.

Lemma only_emits_forward (allowed : Event → bool)
    (batch : Batch) (decode : bool) :
  allowed Rendered = true →
  (decode = true → allowed LatentsDecoded = true) →
  only_emits allowed (forward batch decode).
Proof.
  intros Hr Hd. unfold forward.
  apply only_emits_bind; [auto with emits|intros r].
  apply only_emits_bind; [by apply only_emits_emit|intros _].
  destruct decode; [|apply only_emits_ret].
  specialize (Hd eq_refl).
  repeat first [emits_step | by apply only_emits_emit].
Qed.

Lemma only_emits_evaluation_step (batch : Batch) (batch_idx : nat) :
  only_emits render_event (validation_step batch batch_idx)
  ∧ only_emits render_event (test_step batch batch_idx).
Proof.
  split; unfold validation_step, test_step;
    (apply only_emits_bind; [by apply only_emits_forward|intros ?]);
    repeat emits_step.
Qed.

Lemma only_emits_guidance_term (batch : Batch) :
  only_emits step_event (guidance_term batch).
Proof.
  unfold guidance_term.
  apply only_emits_bind; [by apply only_emits_forward|intros ?].
  repeat emits_step.
Qed.

Lemma only_emits_orientation_term (out : gmap string Tensor) (loss : scalar) :
  only_emits step_event (orientation_term out loss).
Proof. unfold orientation_term, log. repeat emits_step. Qed.

Lemma only_emits_sparsity_term (out : gmap string Tensor) (loss : scalar) :
  only_emits step_event (sparsity_term out loss).
Proof. unfold sparsity_term, log. repeat emits_step. Qed.

Lemma only_emits_opaque_term (out : gmap string Tensor) (loss : scalar) :
  only_emits step_event (opaque_term out loss).
Proof. unfold opaque_term, log. repeat emits_step. Qed.

Lemma only_emits_shape_term (out : gmap string Tensor) (loss : scalar) :
  only_emits (λ e, step_event e || is_ShapeLossEvaluated e)
             (shape_term out loss).
Proof. unfold shape_term, log. repeat emits_step. Qed.

(** The events of a training step. *)
Lemma only_emits_training_step (batch : Batch) (batch_idx : nat) :
  only_emits (λ e, step_event e || is_ShapeLossEvaluated e)
             (training_step batch batch_idx).
Proof.
  assert (Hsub : ∀ e, step_event e = true →
                      step_event e || is_ShapeLossEvaluated e = true).
  { by intros e ->. }
  unfold training_step, training_step_with.
  apply only_emits_bind.
  { eapply only_emits_weaken; [exact Hsub|].
    apply only_emits_guidance_term. }
  intros ?. apply only_emits_bind.
  { eapply only_emits_weaken; [exact Hsub|].
    apply only_emits_orientation_term. }
  intros ?. apply only_emits_bind.
  { eapply only_emits_weaken; [exact Hsub|].
    apply only_emits_sparsity_term. }
  intros ?. apply only_emits_bind.
  { eapply only_emits_weaken; [exact Hsub|].
    apply only_emits_opaque_term. }
  intros ?. apply only_emits_bind; [apply only_emits_shape_term|].
  intros ?. repeat emits_step.
  by apply only_emits_log_params.
Qed.

(** X4.  Validation and test steps only render and decode: whatever the
    state and the batch, and whether they succeed or fail, they assign no
    attribute of the system and do nothing to its collaborators but render
    and decode latents - no prompt is encoded, the guidance model is not
    queried for a loss, no guidance model is constructed, nothing is logged.
    [on_test_epoch_end] and the two empty hooks leave the system as it is. *)
Theorem evaluation_steps_only_render :
  ∀ (batch : Batch) (batch_idx : nat),
    only_emits render_event (validation_step batch batch_idx)
    ∧ only_emits render_event (test_step batch batch_idx)
    ∧ (∀ s, after on_test_epoch_end s = s)
    ∧ (∀ s, after on_validation_epoch_end s = s)
    ∧ (∀ s, after on_before_optimizer_step s = s).
Proof.
  intros batch batch_idx.
  destruct (only_emits_evaluation_step batch batch_idx) as [Hv Ht].
  split_and!; done.
Qed.

(** X5.  A training step assigns no attribute of the system, whether it
    returns or raises: configuration, components, guidance model, prompt
    processor, shape loss and global step are as before, and what it does to
    its collaborators is rendering, encoding the prompt, querying the
    guidance model, evaluating the shape loss and logging - it never decodes
    latents, calls [setup_guidance] or constructs a model. *)
Theorem training_step_assigns_nothing :
  ∀ (batch : Batch) (batch_idx : nat) (s : System),
    ∃ evs,
      after (training_step batch batch_idx) s = with_trace (trace s ++ evs) s
      ∧ Forall (λ e, e ≠ LatentsDecoded ∧ e ≠ SetupGuidance
                     ∧ e ≠ NewGuidance ∧ e ≠ NewPromptProcessor) evs.
Proof.
  intros batch batch_idx s.
  destruct (only_emits_training_step batch batch_idx s) as (evs & Hs & Hevs).
  exists evs; split; [done|].
  apply Is_true_true, forallb_True in Hevs.
  eapply Forall_impl; [exact Hevs|].
  intros e He. by destruct e.
Qed.

(** ** [forward]: what it returns and how it fails *)

(** X6.  How [forward] with decoding fails, in the order of the checks:
    outside refinement mode a missing guidance model is reported first, as
    the [AttributeError] of [decode_latents] on [None], even when
    [comp_rgb] is missing too; otherwise a render output without
    [comp_rgb] is the [KeyError] of that key; and a [comp_rgb] that is not
    4-dimensional fails in the first [permute], before the decoder is
    called.  Each time the scene has been rendered and nothing else has
    happened.  In refinement mode the presence of [comp_rgb] is all that
    decoding needs. *)
Theorem forward_decode_failures :
  ∀ (s : System) (batch : Batch),
    (cfg_refinement (cfg s) = false → guidance s = None →
     forward batch true s
     = (Raise (AttributeError "decode_latents"), record Rendered s))
    ∧ (renderer s batch !! "comp_rgb" = None →
       cfg_refinement (cfg s) = true ∨ is_Some (guidance s) →
       forward batch true s
       = (Raise (KeyError "comp_rgb"), record Rendered s))
    ∧ (∀ comp_rgb : Tensor,
         renderer s batch !! "comp_rgb" = Some comp_rgb →
         cfg_refinement (cfg s) = false → is_Some (guidance s) →
         length (shape comp_rgb) ≠ 4 →
         ∃ msg, forward batch true s
                = (Raise (RuntimeError msg), record Rendered s))
    ∧ (cfg_refinement (cfg s) = true →
       is_ok (outcome (forward batch true) s)
       ↔ is_Some (renderer s batch !! "comp_rgb")).
Proof.
  intros s batch.
  destruct s as [c ge ma ba r g pp sl gs tr]; simpl.
  unfold forward, outcome, bind, M_bind, mbind, gets, emit, modify, lift,
    raise, ret, getitem; simpl.
  split_and!.
  - by intros -> ->.
  - intros Hrgb [->|[g' ->]]; rewrite ?Hrgb; [done|].
    destruct (cfg_refinement c); by rewrite ?Hrgb.
  - intros comp_rgb Hrgb -> [g' ->] Hrank. rewrite Hrgb.
    unfold permute.
    destruct (decide ([0; 3; 1; 2] ≡ₚ seq 0 (length (shape comp_rgb))))
      as [Hperm|Hperm]; [|by eexists].
    apply Permutation_length in Hperm.
    rewrite length_seq in Hperm. simpl in Hperm. congruence.
  - intros ->.
    destruct (r batch !! "comp_rgb") as [comp_rgb|]; simpl.
    + split; [by eexists | done].
    + split; [done | by intros [? ?]].
Qed.

(** X7.  What a successful [forward] returns: the render output with at
    most the entry [decoded_rgb] added or replaced - every other entry is
    the renderer's, and without decoding the output is the render output
    itself; with decoding it holds [decoded_rgb] next to [comp_rgb].  The
    scene is rendered once, and latents are decoded once exactly when
    decoding is asked for outside refinement mode. *)
Theorem forward_output :
  ∀ (s : System) (batch : Batch) (decode : bool) (out : gmap string Tensor),
    outcome (forward batch decode) s = Ok out →
    (∀ k, k ≠ "decoded_rgb" → out !! k = renderer s batch !! k)
    ∧ (decode = false → out = renderer s batch)
    ∧ (decode = true →
       is_Some (out !! "decoded_rgb") ∧ is_Some (out !! "comp_rgb"))
    ∧ after (forward batch decode) s
      = with_trace
          (trace s ++ Rendered
             :: (if decode && negb (cfg_refinement (cfg s))
                 then [LatentsDecoded] else [])) s.
Proof.
  intros s batch decode out.
  destruct s as [c ge ma ba r g pp sl gs tr]; simpl.
  unfold forward, outcome, after, bind, M_bind, mbind, gets, emit, modify,
    lift, raise, ret, getitem, with_trace, record; simpl.
  destruct decode; simpl.
  - destruct (cfg_refinement c); simpl.
    + destruct (r batch !! "comp_rgb") as [comp_rgb|] eqn:Hrgb; [|done].
      intros [= <-]. split_and!; [|done| |done].
      * intros k Hk. by rewrite lookup_insert_ne.
      * intros _. rewrite lookup_insert_eq, lookup_insert_ne, Hrgb; [|done].
        by split; eexists.
    + destruct g as [g|]; [|done].
      destruct (r batch !! "comp_rgb") as [comp_rgb|] eqn:Hrgb; [|done].
      destruct (permute [0; 3; 1; 2] comp_rgb) as [latents|]; [|done].
      simpl.
      destruct (permute [0; 2; 3; 1] (decode_latents g latents))
        as [decoded|]; [|done].
      simpl. intros [= <-].
      split_and!; [|done| |by rewrite <- app_assoc].
      * intros k Hk. by rewrite lookup_insert_ne.
      * intros _. rewrite lookup_insert_eq, lookup_insert_ne, Hrgb; [|done].
        by split; eexists.
  - intros [= <-]. split_and!; done.
Qed.

(** ** Runs: what the hooks set up and what training needs *)

Lemma after_do_ret {A : Type} (m : M A) (s : System) :
  after (do m in ret tt) s = after m s.
Proof.
  rewrite after_bind. by destruct (outcome m s).
Qed.

Lemma outcome_bind_Ok {A B : Type} (m : M A) (k : A → M B) (s : System)
    (b : B) :
  outcome (let* x := m in k x) s = Ok b →
  ∃ a, outcome m s = Ok a ∧ outcome (k a) (after m s) = Ok b.
Proof.
  unfold outcome, after, bind, M_bind, mbind.
  destruct (m s) as [[a|e] s']; simpl; [|done].
  intros H. by exists a.
Qed.

Lemma outcome_bind_Raise {A B : Type} (m : M A) (k : A → M B) (s : System)
    (e : exn) :
  outcome (let* x := m in k x) s = Raise e →
  outcome m s = Raise e
  ∨ ∃ a, outcome m s = Ok a ∧ outcome (k a) (after m s) = Raise e.
Proof.
  unfold outcome, after, bind, M_bind, mbind.
  destruct (m s) as [[a|e'] s']; simpl; [|intros [= ->]; by left].
  intros H. right. by exists a.
Qed.

Lemma with_trace_with_trace (t t' : list Event) (s : System) :
  with_trace t' (with_trace t s) = with_trace t' s.
Proof. done. Qed.

Lemma same_setup_refl (s : System) : same_setup s s.
Proof. done. Qed.

Lemma same_setup_trans (s1 s2 s3 : System) :
  same_setup s1 s2 → same_setup s2 s3 → same_setup s1 s3.
Proof.
  intros (H1 & H2 & H3 & H4) (H1' & H2' & H3' & H4').
  split_and!; congruence.
Qed.

Lemma same_setup_with_trace (t : list Event) (s : System) :
  same_setup s (with_trace t s).
Proof. done. Qed.

(** [setup_guidance] assigns the guidance attribute and nothing else. *)
Lemma setup_guidance_frame (s : System) :
  same_setup s (after setup_guidance s)
  ∧ prompt_processor (after setup_guidance s) = prompt_processor s
  ∧ is_Some (guidance (after setup_guidance s)).
Proof.
  destruct s as [c ge ma ba r [g|] pp sl gs tr]; by split_and!.
Qed.

Lemma on_fit_start_frame (s : System) :
  same_setup s (after on_fit_start s)
  ∧ is_Some (prompt_processor (after on_fit_start s))
  ∧ is_Some (guidance (after on_fit_start s)).
Proof.
  destruct s as [c ge ma ba r [g|] pp sl gs tr]; by split_and!.
Qed.

Lemma on_validation_start_frame (s : System) :
  same_setup s (after on_validation_start s)
  ∧ prompt_processor (after on_validation_start s) = prompt_processor s
  ∧ (is_Some (guidance s) → is_Some (guidance (after on_validation_start s))).
Proof.
  unfold after. rewrite on_validation_start_effect.
  destruct (cfg_refinement (cfg s)); [done|].
  destruct (setup_guidance_frame s) as (H1 & H2 & H3). by split_and!.
Qed.

Lemma on_test_start_frame (s : System) :
  same_setup s (after on_test_start s)
  ∧ prompt_processor (after on_test_start s) = prompt_processor s
  ∧ (is_Some (guidance s) → is_Some (guidance (after on_test_start s))).
Proof.
  unfold after. rewrite on_test_start_effect.
  destruct (cfg_refinement (cfg s)); [done|].
  destruct (setup_guidance_frame s) as (H1 & H2 & H3). by split_and!.
Qed.

(** What a request keeps: the set-up always, a guidance model once it is
    there, and the prompt processor unless the request is the start of a
    fit. *)
Lemma serve_frame (r : Request) (s : System) :
  same_setup s (after (serve r) s)
  ∧ (is_FitStart r = false →
     prompt_processor (after (serve r) s) = prompt_processor s)
  ∧ (ready s → ready (after (serve r) s)).
Proof.
  destruct r as [| | | |batch decode|batch batch_idx];
    cbn [serve is_FitStart].
  - destruct (on_fit_start_frame s) as (H1 & H2 & H3).
    split_and!; [done..|]. by intros _ _.
  - destruct (on_validation_start_frame s) as (H1 & H2 & H3).
    split_and!; [done..|]. unfold ready. rewrite H2. auto.
  - destruct (on_test_start_frame s) as (H1 & H2 & H3).
    split_and!; [done..|]. unfold ready. rewrite H2. auto.
  - destruct (setup_guidance_frame s) as (H1 & H2 & H3).
    split_and!; [done..|]. by intros _ _.
  - rewrite after_do_ret.
    destruct (only_emits_forward (λ _, true) batch decode eq_refl
                (λ _, eq_refl) s) as (evs & -> & _).
    by split_and!.
  - rewrite after_do_ret.
    destruct (only_emits_training_step batch batch_idx s) as (evs & -> & _).
    by split_and!.
Qed.

Lemma run_frame (rs : list Request) (s : System) :
  same_setup s (after (run rs) s)
  ∧ (forallb (λ r, negb (is_FitStart r)) rs = true →
     prompt_processor (after (run rs) s) = prompt_processor s)
  ∧ (ready s → ready (after (run rs) s)).
Proof.
  revert s; induction rs as [|r rs IH]; intros s; [done|].
  cbn [run forallb]. rewrite after_bind.
  destruct (serve_frame r s) as (H1 & H2 & H3).
  destruct (outcome (serve r) s) as [[]|e].
  - destruct (IH (after (serve r) s)) as (H1' & H2' & H3').
    split_and!.
    + by eapply same_setup_trans.
    + intros [Hr Hrs]%andb_true_iff.
      rewrite H2' by auto. apply H2. by destruct (is_FitStart r).
    + auto.
  - split_and!; [done| |done].
    intros [Hr Hrs]%andb_true_iff.
    apply H2. by destruct (is_FitStart r).
Qed.
(** X8.  Training needs [on_fit_start]: in the state any run without a fit
    start leaves - hooks of validation and test, [setup_guidance], forwards
    and training steps, in any number and order after [configure] - the
    prompt processor does not exist, and a training step renders the scene
    and then fails with the [AttributeError] of [prompt_processor], without
    querying the guidance model. *)
Theorem training_needs_fit_start :
  ∀ (c : Config) (step : nat) (rs : list Request)
    (batch : Batch) (batch_idx : nat),
    forallb (λ r, negb (is_FitStart r)) rs = true →
    let s := after (run rs) (configure c step) in
    training_step batch batch_idx s
    = (Raise (AttributeError "prompt_processor"), record Rendered s).
Proof.
  intros c step rs batch batch_idx Hrs s.
  assert (Hpp : prompt_processor s = None).
  { destruct (run_frame rs (configure c step)) as (_ & H & _).
    unfold s. by rewrite H. }
  clearbody s.
  destruct s as [c' ge ma ba r g pp sl gs tr]; simpl in Hpp; subst pp.
  reflexivity.
Qed.

(** ** Exceptions a method can raise *)

Lemma raises_only_ret (ok : exn → bool) {A : Type} (a : A) :
  raises_only ok (ret a).
Proof. by intros s e. Qed.

Lemma raises_only_gets (ok : exn → bool) {A : Type} (f : System → A) :
  raises_only ok (gets f).
Proof. by intros s e. Qed.

Lemma raises_only_emit (ok : exn → bool) (ev : Event) :
  raises_only ok (emit ev).
Proof. by intros s e. Qed.

Lemma raises_only_raise (ok : exn → bool) {A : Type} (e : exn) :
  ok e = true → raises_only ok (@raise A e).
Proof. intros He s e'. by intros [= <-]. Qed.

Lemma raises_only_lift (ok : exn → bool) {A : Type} (r : result A) :
  (∀ e, r = Raise e → ok e = true) → raises_only ok (lift r).
Proof. intros Hr s e. apply Hr. Qed.

Lemma raises_only_bind (ok : exn → bool) {A B : Type}
    (m : M A) (k : A → M B) :
  raises_only ok m → (∀ a, raises_only ok (k a)) →
  raises_only ok (let* a := m in k a).
Proof.
  intros Hm Hk s e [H|(a & _ & H)]%outcome_bind_Raise.
  - by eapply Hm.
  - by eapply Hk.
Qed.

Create HintDb raises.
#[local] Hint Resolve raises_only_ret raises_only_gets raises_only_emit
  : raises.

Ltac raises_step :=
  first
    [ apply raises_only_bind; [|intros ?]
    | solve [auto with raises]
    | apply raises_only_raise; reflexivity
    | match goal with
      | |- raises_only _ (match ?x with _ => _ end) => destruct x
      end ].

Lemma raises_only_getattr {A : Type} (f : System → option A) (name : string) :
  raises_only not_TypeError (getattr f name).
Proof. unfold getattr. repeat raises_step. Qed.

Lemma raises_only_weight (name : string) :
  raises_only not_TypeError (weight name).
Proof. unfold weight. repeat raises_step. Qed.

Lemma raises_only_log_params (step : nat) (items : list (string * Schedule)) :
  raises_only not_TypeError (log_params step items).
Proof.
  induction items as [|[name value] items IH]; simpl.
  - apply raises_only_ret.
  - apply raises_only_bind; [apply raises_only_emit|done].
Qed.

#[local] Hint Resolve raises_only_getattr raises_only_weight
  raises_only_log_params : raises.

Lemma getitem_raises {V : Type} (d : gmap string V) (k : string) (e : exn) :
  getitem d k = Raise e → not_TypeError e = true.
Proof. unfold getitem. destruct (d !! k); by intros [= <-]. Qed.

Lemma raises_only_getitem {V : Type} (d : gmap string V) (k : string) :
  raises_only not_TypeError (lift (getitem d k)).
Proof. apply raises_only_lift, getitem_raises. Qed.

#[local] Hint Resolve raises_only_getitem : raises.

Lemma rbind_raises {A B : Type} (r : result A) (k : A → result B) :
  (∀ e, r = Raise e → not_TypeError e = true) →
  (∀ a e, k a = Raise e → not_TypeError e = true) →
  ∀ e, (let* a := r in k a) = Raise e → not_TypeError e = true.
Proof.
  intros Hr Hk e. destruct r as [a|e']; simpl.
  - apply Hk.
  - intros [= <-]. by apply Hr.
Qed.

Lemma mul_raises (a b : Tensor) (e : exn) :
  mul a b = Raise e → not_TypeError e = true.
Proof. unfold mul. case_decide; by intros [= <-]. Qed.

Lemma loss_orient_raises (out : gmap string Tensor) (e : exn) :
  loss_orient out = Raise e → not_TypeError e = true.
Proof.
  revert e. unfold loss_orient, dot.
  repeat first
    [ done
    | apply getitem_raises
    | apply mul_raises
    | apply rbind_raises; [|intros ?] ].
Qed.
Lemma loss_sparsity_raises (out : gmap string Tensor) (e : exn) :
  loss_sparsity out = Raise e → not_TypeError e = true.
Proof.
  revert e. unfold loss_sparsity.
  apply rbind_raises; [apply getitem_raises|done].
Qed.

Lemma loss_opaque_raises (out : gmap string Tensor) (e : exn) :
  loss_opaque out = Raise e → not_TypeError e = true.
Proof.
  revert e. unfold loss_opaque.
  apply rbind_raises; [apply getitem_raises|].
  intros opacity e. unfold binary_cross_entropy.
  repeat case_decide; by intros [= <-].
Qed.

Lemma shape0_raises (t : Tensor) (e : exn) :
  shape0 t = Raise e → not_TypeError e = true.
Proof. unfold shape0. destruct (shape t); by intros [= <-]. Qed.

Lemma raises_only_orientation_term (out : gmap string Tensor)
    (loss : scalar) :
  raises_only not_TypeError (orientation_term out loss).
Proof.
  unfold orientation_term, log.
  repeat first [raises_step | apply raises_only_lift, loss_orient_raises].
Qed.

Lemma raises_only_sparsity_term (out : gmap string Tensor) (loss : scalar) :
  raises_only not_TypeError (sparsity_term out loss).
Proof.
  unfold sparsity_term, log.
  repeat first [raises_step | apply raises_only_lift, loss_sparsity_raises].
Qed.

Lemma raises_only_opaque_term (out : gmap string Tensor) (loss : scalar) :
  raises_only not_TypeError (opaque_term out loss).
Proof.
  unfold opaque_term, log.
  repeat first [raises_step | apply raises_only_lift, loss_opaque_raises].
Qed.

Lemma raises_only_shape_term (out : gmap string Tensor) (loss : scalar) :
  raises_only not_TypeError (shape_term out loss).
Proof.
  unfold shape_term, log.
  repeat first [raises_step | apply raises_only_lift, shape0_raises].
Qed.

(** With a guidance model in place, the first block of the step raises no
    [TypeError]. *)
Lemma guidance_term_raises (batch : Batch) (s : System) (e : exn) :
  ready s →
  outcome (guidance_term batch) s = Raise e → not_TypeError e = true.
Proof.
  intros Hready.
  destruct s as [c ge ma ba r g pp sl gs tr].
  unfold ready in Hready; simpl in Hready.
  destruct pp as [pp|]; [|by intros [= <-]].
  destruct Hready as [g' ->]; [by eexists|].
  unfold guidance_term, forward, getattr, weight, outcome, bind, M_bind,
    mbind, gets, emit, modify, lift, raise, ret, getitem; simpl.
  destruct (r batch !! "comp_rgb") as [comp_rgb|]; [|by intros [= <-]].
  destruct (call g' comp_rgb (pp batch) (negb (cfg_refinement c)) !! "sds")
    as [sds|]; [|by intros [= <-]].
  destruct (assoc "lambda_sds" (cfg_loss c)); [done|by intros [= <-]].
Qed.

Lemma training_step_raises (batch : Batch) (batch_idx : nat) (s : System)
    (e : exn) :
  ready s →
  outcome (training_step batch batch_idx) s = Raise e →
  not_TypeError e = true.
Proof.
  intros Hready.
  unfold training_step, training_step_with.
  intros [H|(started & _ & H)]%outcome_bind_Raise.
  { by eapply guidance_term_raises. }
  revert e H. generalize (after (guidance_term batch) s).
  cbv zeta.
  apply raises_only_bind; [apply raises_only_orientation_term|intros ?].
  apply raises_only_bind; [apply raises_only_sparsity_term|intros ?].
  apply raises_only_bind; [apply raises_only_opaque_term|intros ?].
  apply raises_only_bind; [apply raises_only_shape_term|intros ?].
  repeat raises_step.
Qed.

(** X9.  On a run, the guidance model is never called while it is [None]:
    in every state that [configure] followed by hooks, [setup_guidance],
    forwards and training steps reaches, the prompt processor exists only
    if the guidance model does, so a training step - which fails without a
    prompt processor before it looks at the guidance model - never raises
    the [TypeError] of calling [None]. *)
Theorem training_never_calls_none :
  ∀ (c : Config) (step : nat) (rs : list Request)
    (batch : Batch) (batch_idx : nat) (msg : string),
    let s := after (run rs) (configure c step) in
    (is_Some (prompt_processor s) → is_Some (guidance s))
    ∧ outcome (training_step batch batch_idx) s ≠ Raise (TypeError msg).
Proof.
  intros c step rs batch batch_idx msg s.
  assert (Hready : ready s).
  { apply run_frame. by intros [? [=]]. }
  split; [exact Hready|].
  intros H. by apply training_step_raises in H.
Qed.

(** ** The training step, block after block *)

Lemma shape_due_with_trace (t : list Event) (s : System)
    (out : gmap string Tensor) :
  shape_due (with_trace t s) out = shape_due s out.
Proof. done. Qed.

(** What a training step that returns went through: each block returned,
    in a state that differs from the first one by its trace only. *)
Lemma training_step_Ok (batch : Batch) (batch_idx : nat) (s : System)
    (d : gmap string scalar) :
  outcome (training_step batch batch_idx) s = Ok d →
  let out := renderer s batch in
  ∃ (l0 l1 l2 l3 l4 : scalar) (e0 e1 e2 e3 : list Event),
    outcome (guidance_term batch) s = Ok (out, l0)
    ∧ outcome (orientation_term out l0) (with_trace (trace s ++ e0) s) = Ok l1
    ∧ outcome (sparsity_term out l1) (with_trace (trace s ++ e1) s) = Ok l2
    ∧ outcome (opaque_term out l2) (with_trace (trace s ++ e2) s) = Ok l3
    ∧ outcome (shape_term out l3) (with_trace (trace s ++ e3) s) = Ok l4
    ∧ d = {["loss" := l4]}.
Proof.
  intros H out. unfold training_step, training_step_with in H.
  apply outcome_bind_Ok in H as ([out' l0] & H0 & H).
  destruct (only_emits_guidance_term batch s) as (e0 & He0 & _).
  rewrite He0 in H.
  pose proof (guidance_term_out _ _ _ _ H0) as ->. fold out in H0, H.
  cbv zeta in H. simpl fst in H. simpl snd in H.
  apply outcome_bind_Ok in H as (l1 & H1 & H).
  destruct (only_emits_orientation_term out l0 (with_trace (trace s ++ e0) s))
    as (e1 & He1 & _).
  rewrite He1 in H. cbn [trace with_trace] in H.
  rewrite with_trace_with_trace in H.
  apply outcome_bind_Ok in H as (l2 & H2 & H).
  destruct (only_emits_sparsity_term out l1
              (with_trace ((trace s ++ e0) ++ e1) s)) as (e2 & He2 & _).
  rewrite He2 in H. cbn [trace with_trace] in H.
  rewrite with_trace_with_trace in H.
  apply outcome_bind_Ok in H as (l3 & H3 & H).
  destruct (only_emits_opaque_term out l2
              (with_trace (((trace s ++ e0) ++ e1) ++ e2) s))
    as (e3 & He3 & _).
  rewrite He3 in H. cbn [trace with_trace] in H.
  rewrite with_trace_with_trace in H.
  apply outcome_bind_Ok in H as (l4 & H4 & H).
  exists l0, l1, l2, l3, l4, e0, (e0 ++ e1), (e0 ++ e1 ++ e2),
    (e0 ++ e1 ++ e2 ++ e3).
  rewrite !app_assoc. split_and!; try done.
  apply outcome_bind_Ok in H as (c & _ & H).
  apply outcome_bind_Ok in H as (step & _ & H).
  apply outcome_bind_Ok in H as ([] & _ & H).
  by injection H as <-.
Qed.

Lemma shape_term_unconfigured (out : gmap string Tensor) (loss : scalar)
    (s : System) :
  shape_loss s = None → shape_due s out = true →
  shape_term out loss s = (Raise (AttributeError "shape_loss"), s).
Proof.
  intros Hsl Hdue. unfold shape_due in Hdue.
  destruct (assoc "lambda_shape" (cfg_loss (cfg s))) as [v|] eqn:Hv; [|done].
  apply andb_true_iff in Hdue as [Hpos Hpoints].
  apply bool_decide_eq_true in Hpos.
  destruct (out !! "points") as [points|] eqn:Hp; [|done].
  destruct (shape points) as [|[|n] rest] eqn:Hshape; try done.
  unfold shape_term.
  rewrite (bind_run _ _ _ _ (weight_run _ _ _ Hv)).
  unfold bind at 1, M_bind, mbind. cbn [ret].
  destruct (decide (0 < C (global_step s) v)%R) as [_|]; [|done].
  destruct s as [c ge ma ba r g pp sl gs tr]; simpl in Hsl; subst sl.
  unfold getattr, outcome, bind, M_bind, mbind, gets, lift, ret, raise,
    getitem, shape0.
  by rewrite Hp, Hshape.
Qed.

(** X10.  The shape loss needs a configured guide shape: when the
    configuration names none, no run of hooks, forwards and training steps
    ever creates the shape-loss evaluator, and whenever the condition of
    the shape term holds - positive [lambda_shape], at least one sample
    point - the term fails with the [AttributeError] of [shape_loss], so
    that no training step returns. *)
Theorem shape_loss_needs_guide_shape :
  ∀ (c : Config) (step : nat) (rs : list Request)
    (batch : Batch) (batch_idx : nat),
    cfg_guide_shape c = None →
    let s := after (run rs) (configure c step) in
    shape_loss s = None
    ∧ (∀ out loss,
         shape_due s out = true →
         shape_term out loss s = (Raise (AttributeError "shape_loss"), s))
    ∧ (shape_due s (renderer s batch) = true →
       ¬ is_ok (outcome (training_step batch batch_idx) s)).
Proof.
  intros c step rs batch batch_idx Hguide s.
  assert (Hsl : shape_loss s = None).
  { destruct (run_frame rs (configure c step)) as ((_ & _ & H & _) & _).
    unfold s. rewrite H. simpl. by rewrite Hguide. }
  clearbody s. split_and!; [done| |].
  - intros out loss. by apply shape_term_unconfigured.
  - intros Hdue Hok.
    destruct (outcome (training_step batch batch_idx) s) as [d|] eqn:Hd;
      [|done].
    apply training_step_Ok in Hd
      as (l0 & l1 & l2 & l3 & l4 & e0 & e1 & e2 & e3 & _ & _ & _ & _ & H & _).
    unfold outcome in H.
    rewrite shape_term_unconfigured in H; done.
Qed.

Lemma bind_eq {A B : Type} (m : M A) (k : A → M B) (s s' : System) (a : A) :
  m s = (Ok a, s') → (let* x := m in k x) s = k a s'.
Proof. unfold bind, M_bind, mbind. by intros ->. Qed.

Lemma log_params_run (step : nat) (items : list (string * Schedule))
    (s : System) :
  log_params step items s
  = (Ok tt, with_trace (trace s ++ param_logs step items) s).
Proof.
  revert s; induction items as [|[name value] items IH]; intros s.
  - simpl. unfold ret. by rewrite app_nil_r, with_trace_same.
  - cbn [log_params]. erewrite bind_eq by reflexivity.
    rewrite IH. unfold with_trace, record, param_logs; simpl.
    by rewrite <- app_assoc.
Qed.

Lemma guidance_term_run (batch : Batch) (s : System) (p : PromptProcessor)
    (g : Guidance) (comp_rgb : Tensor) (sds : scalar) (v : Schedule) :
  prompt_processor s = Some p →
  guidance s = Some g →
  renderer s batch !! "comp_rgb" = Some comp_rgb →
  call g comp_rgb (p batch) (negb (cfg_refinement (cfg s))) !! "sds"
  = Some sds →
  assoc "lambda_sds" (cfg_loss (cfg s)) = Some v →
  guidance_term batch s
  = (Ok (renderer s batch,
         sadd (Finite 0.0) (smul sds (Finite (C (global_step s) v)))),
     with_trace (trace s ++ [Rendered; Encoded; GuidanceQueried]) s).
Proof.
  destruct s as [c ge ma ba r g' pp sl gs tr]; simpl.
  intros -> -> Hrgb Hsds Hv.
  unfold guidance_term, forward, getattr, weight, bind, M_bind, mbind, gets,
    emit, modify, lift, raise, ret, getitem, with_trace, record; simpl.
  rewrite Hrgb. simpl. rewrite Hsds, Hv.
  by rewrite <- !app_assoc.
Qed.

Lemma sparsity_term_run (out : gmap string Tensor) (loss l : scalar)
    (v : Schedule) (s : System) :
  loss_sparsity out = Ok l →
  assoc "lambda_sparsity" (cfg_loss (cfg s)) = Some v →
  sparsity_term out loss s
  = (Ok (sadd loss (smul l (Finite (C (global_step s) v)))),
     record (Logged "train/loss_sparsity" l) s).
Proof.
  intros Hl Hv. unfold sparsity_term. rewrite Hl.
  erewrite bind_eq by reflexivity.
  erewrite bind_eq by reflexivity.
  erewrite bind_eq by (by apply weight_run).
  done.
Qed.

Lemma opaque_term_run (out : gmap string Tensor) (loss l : scalar)
    (v : Schedule) (s : System) :
  loss_opaque out = Ok l →
  assoc "lambda_opaque" (cfg_loss (cfg s)) = Some v →
  opaque_term out loss s
  = (Ok (sadd loss (smul l (Finite (C (global_step s) v)))),
     record (Logged "train/loss_opaque" l) s).
Proof.
  intros Hl Hv. unfold opaque_term. rewrite Hl.
  erewrite bind_eq by reflexivity.
  erewrite bind_eq by reflexivity.
  erewrite bind_eq by (by apply weight_run).
  done.
Qed.

Lemma shape_term_off (out : gmap string Tensor) (loss : scalar)
    (v : Schedule) (s : System) :
  assoc "lambda_shape" (cfg_loss (cfg s)) = Some v →
  ¬ (0 < C (global_step s) v)%R →
  shape_term out loss s = (Ok loss, s).
Proof.
  intros Hv Hle. unfold shape_term.
  erewrite bind_eq by (by apply weight_run).
  rewrite decide_False by done.
  by erewrite bind_eq by reflexivity.
Qed.

(** A step whose two conditional terms are switched off. *)
Lemma training_step_plain (batch : Batch) (batch_idx : nat) (s : System)
    (p : PromptProcessor) (g : Guidance) (comp_rgb : Tensor)
    (sds sparsity opaque : scalar)
    (v_sds v_orient v_sparsity v_opaque v_shape : Schedule) :
  prompt_processor s = Some p →
  guidance s = Some g →
  renderer s batch !! "comp_rgb" = Some comp_rgb →
  call g comp_rgb (p batch) (negb (cfg_refinement (cfg s))) !! "sds"
  = Some sds →
  loss_sparsity (renderer s batch) = Ok sparsity →
  loss_opaque (renderer s batch) = Ok opaque →
  assoc "lambda_sds" (cfg_loss (cfg s)) = Some v_sds →
  assoc "lambda_orient" (cfg_loss (cfg s)) = Some v_orient →
  assoc "lambda_sparsity" (cfg_loss (cfg s)) = Some v_sparsity →
  assoc "lambda_opaque" (cfg_loss (cfg s)) = Some v_opaque →
  assoc "lambda_shape" (cfg_loss (cfg s)) = Some v_shape →
  ¬ (0 < C (global_step s) v_orient)%R →
  ¬ (0 < C (global_step s) v_shape)%R →
  training_step batch batch_idx s
  = (Ok {["loss" :=
            sadd (sadd (sadd (Finite 0.0)
                             (smul sds (Finite (C (global_step s) v_sds))))
                       (smul sparsity
                             (Finite (C (global_step s) v_sparsity))))
                 (smul opaque (Finite (C (global_step s) v_opaque)))]},
     with_trace
       (trace s
        ++ [Rendered; Encoded; GuidanceQueried;
            Logged "train/loss_sparsity" sparsity;
            Logged "train/loss_opaque" opaque]
        ++ param_logs (global_step s) (cfg_loss (cfg s))) s).
Proof.
  intros Hp Hg Hrgb Hsds Hsp Hop H1 H2 H3 H4 H5 Horient Hshape.
  unfold training_step, training_step_with.
  erewrite bind_eq by (by eapply guidance_term_run).
  cbv zeta. simpl fst. simpl snd.
  erewrite bind_eq by (by eapply orientation_term_skip).
  erewrite bind_eq by (by eapply sparsity_term_run).
  erewrite bind_eq by (by eapply opaque_term_run).
  erewrite bind_eq by (by eapply shape_term_off).
  erewrite bind_eq by reflexivity.
  erewrite bind_eq by reflexivity.
  erewrite bind_eq by apply log_params_run.
  unfold ret, with_trace, record; simpl.
  by rewrite <- !app_assoc.
Qed.

(** ** Non-finite losses *)

Lemma sadd_NonFinite (a : scalar) : sadd a NonFinite = NonFinite.
Proof. by destruct a. Qed.

Lemma outcome_ret {A : Type} (a b : A) (s : System) :
  outcome (ret a) s = Ok b → a = b.
Proof. by intros [= ->]. Qed.

Ltac bind_Ok_in H :=
  let a := fresh "a" in
  apply outcome_bind_Ok in H as (a & _ & H).

(** Each term passes a non-finite running loss on. *)
Lemma orientation_term_absorbs (out : gmap string Tensor) (s : System)
    (l : scalar) :
  outcome (orientation_term out NonFinite) s = Ok l → l = NonFinite.
Proof.
  unfold orientation_term. intros H. bind_Ok_in H.
  case_decide; [|by apply outcome_ret in H].
  destruct (negb (contains out "normal")); [done|].
  do 3 bind_Ok_in H. by apply outcome_ret in H.
Qed.

Lemma sparsity_term_absorbs (out : gmap string Tensor) (s : System)
    (l : scalar) :
  outcome (sparsity_term out NonFinite) s = Ok l → l = NonFinite.
Proof.
  unfold sparsity_term. intros H.
  do 3 bind_Ok_in H. by apply outcome_ret in H.
Qed.

Lemma opaque_term_absorbs (out : gmap string Tensor) (s : System)
    (l : scalar) :
  outcome (opaque_term out NonFinite) s = Ok l → l = NonFinite.
Proof.
  unfold opaque_term. intros H.
  do 3 bind_Ok_in H. by apply outcome_ret in H.
Qed.

Lemma shape_term_absorbs (out : gmap string Tensor) (s : System)
    (l : scalar) :
  outcome (shape_term out NonFinite) s = Ok l → l = NonFinite.
Proof.
  unfold shape_term. intros H. do 2 bind_Ok_in H.
  match type of H with
  | outcome (if ?b then _ else _) _ = _ => destruct b
  end; [|by apply outcome_ret in H].
  do 6 bind_Ok_in H. by apply outcome_ret in H.
Qed.

(** The mean of no entries. *)
Lemma sparsity_term_empty (out : gmap string Tensor) (opacity : Tensor)
    (loss l : scalar) (s : System) :
  out !! "opacity" = Some opacity → numel opacity = 0 →
  outcome (sparsity_term out loss) s = Ok l → l = NonFinite.
Proof.
  intros Ho Hn. unfold sparsity_term. intros H.
  apply outcome_bind_Ok in H as (l' & Hl' & H).
  assert (l' = NonFinite) as ->.
  { revert Hl'. unfold outcome, lift, loss_sparsity, getitem. rewrite Ho.
    unfold bind, result_bind, rbind, mean, numel, tsqrt, add_const, pow2,
      pointwise.
    cbn [data fst]. rewrite !length_fmap. unfold numel in Hn. rewrite Hn.
    by intros [= <-]. }
  do 2 bind_Ok_in H. apply outcome_ret in H as <-.
  apply sadd_NonFinite.
Qed.

Lemma guidance_term_non_finite (batch : Batch) (s : System)
    (p : PromptProcessor) (g : Guidance) (comp_rgb : Tensor)
    (out : gmap string Tensor) (l : scalar) :
  prompt_processor s = Some p →
  guidance s = Some g →
  renderer s batch !! "comp_rgb" = Some comp_rgb →
  call g comp_rgb (p batch) (negb (cfg_refinement (cfg s))) !! "sds"
  = Some NonFinite →
  outcome (guidance_term batch) s = Ok (out, l) → l = NonFinite.
Proof.
  intros Hp Hg Hrgb Hsds H.
  destruct (assoc "lambda_sds" (cfg_loss (cfg s))) as [v|] eqn:Hv.
  - unfold outcome in H.
    rewrite (guidance_term_run batch s p g comp_rgb NonFinite v) in H
      by done.
    by injection H as _ <-.
  - revert H. destruct s as [c ge ma ba r g' pp sl gs tr]; simpl in *.
    subst g' pp.
    unfold guidance_term, forward, getattr, weight, outcome, bind, M_bind,
      mbind, gets, emit, modify, lift, raise, ret, getitem; simpl.
    rewrite Hrgb; simpl. by rewrite Hsds, Hv.
Qed.

(** X12.  A non-finite loss is returned, not raised or repaired.  Whenever a
    training step returns: if the opacity of the render output has no
    entry, so that its mean is not a number, or if the guidance model
    reported a non-finite distillation loss, then the returned loss is
    non-finite - whatever the weights, zero included, and whatever the
    other terms. *)
Theorem non_finite_loss_is_returned :
  ∀ (s : System) (batch : Batch) (batch_idx : nat) (d : gmap string scalar),
    outcome (training_step batch batch_idx) s = Ok d →
    (∀ opacity : Tensor,
       renderer s batch !! "opacity" = Some opacity →
       numel opacity = 0 →
       d = {["loss" := NonFinite]})
    ∧ (∀ (p : PromptProcessor) (g : Guidance) (comp_rgb : Tensor),
         prompt_processor s = Some p →
         guidance s = Some g →
         renderer s batch !! "comp_rgb" = Some comp_rgb →
         call g comp_rgb (p batch) (negb (cfg_refinement (cfg s))) !! "sds"
         = Some NonFinite →
         d = {["loss" := NonFinite]}).
Proof.
  intros s batch batch_idx d Hd.
  apply training_step_Ok in Hd
    as (l0 & l1 & l2 & l3 & l4 & e0 & e1 & e2 & e3
        & H0 & H1 & H2 & H3 & H4 & ->).
  split.
  - intros opacity Ho Hn.
    apply (sparsity_term_empty _ opacity) in H2 as ->; [|done..].
    apply opaque_term_absorbs in H3 as ->.
    by apply shape_term_absorbs in H4 as ->.
  - intros p g comp_rgb Hp Hg Hrgb Hsds.
    apply (guidance_term_non_finite _ _ p g comp_rgb) in H0 as ->; [|done..].
    apply orientation_term_absorbs in H1 as ->.
    apply sparsity_term_absorbs in H2 as ->.
    apply opaque_term_absorbs in H3 as ->.
    by apply shape_term_absorbs in H4 as ->.
Qed.

(** ** The sign of the orientation loss and the loss of a plain step *)

Section Bounds.

#[local] Open Scope R_scope.

(** X16.  With sample weights that are not negative the orientation loss is
    not negative, and it vanishes when no normal points along its ray
    direction - when the dot product of normal and direction is at most 0
    for every sample: on a render output of [n] samples with [d]
    coordinates and at least one positive opacity. *)
Theorem orientation_loss_sign :
  ∀ (out : gmap string Tensor) (n d : nat)
    (weights normal t_dirs opacity : Tensor),
    out !! "weights" = Some weights →
    out !! "normal" = Some normal →
    out !! "t_dirs" = Some t_dirs →
    out !! "opacity" = Some opacity →
    shape weights = [n; 1%nat] →
    shape normal = [n; d] →
    shape t_dirs = [n; d] →
    (0 < positive_count opacity)%nat →
    (∀ i, (i < n)%nat → 0 <= entry weights i) →
    ∃ l : R,
      loss_orient out = Ok (Finite l)
      ∧ 0 <= l
      ∧ ((∀ i, (i < n)%nat → row_dot d normal t_dirs i <= 0) → l = 0).
Proof.
  intros out n d weights normal t_dirs opacity Hw Hn Ht Ho Sw Sn St Hc Hpos.
  exists (orientation_sum n d weights normal t_dirs
          / INR (positive_count opacity)).
  rewrite (loss_orient_value out n d weights normal t_dirs opacity) by done.
  assert (Hcount : 0 < INR (positive_count opacity)) by by apply lt_0_INR.
  split_and!.
  - unfold div_count. by destruct (positive_count opacity); [lia|].
  - apply Rmult_le_pos; [|left; by apply Rinv_0_lt_compat].
    unfold orientation_sum.
    pose proof (big_sum_lower n
      (λ i, entry weights i * positive_part (row_dot d normal t_dirs i) ^ 2)
      0) as Hlow.
    rewrite Rmult_0_r in Hlow. apply Hlow. intros i Hi.
    apply Rmult_le_pos; [by apply Hpos|]. apply pow2_ge_0.
  - intros Haway. unfold orientation_sum.
    rewrite (big_sum_const _ _ 0); [field; lra|].
    intros i Hi. unfold positive_part.
    rewrite Rmax_left by by apply Haway. lra.
Qed.

(** X11.  The loss of a step whose conditional terms are switched off: with
    prompt processor and guidance model in place, [comp_rgb] and a
    non-empty [opacity] in the render output, a finite distillation loss
    [sds], and the weights [lambda_orient] and [lambda_shape] not positive,
    the step returns the one entry [loss], equal to
    [sds * lambda_sds + sparsity * lambda_sparsity + opaque * lambda_opaque],
    after rendering, encoding, querying the guidance model and logging the
    two regularizers and then every configured weight in configuration
    order - and it changes no attribute. *)
Theorem training_step_loss :
  ∀ (s : System) (batch : Batch) (batch_idx : nat)
    (p : PromptProcessor) (g : Guidance) (comp_rgb opacity : Tensor)
    (sds : R) (v_sds v_orient v_sparsity v_opaque v_shape : Schedule),
    prompt_processor s = Some p →
    guidance s = Some g →
    renderer s batch !! "comp_rgb" = Some comp_rgb →
    renderer s batch !! "opacity" = Some opacity →
    (0 < numel opacity)%nat →
    call g comp_rgb (p batch) (negb (cfg_refinement (cfg s))) !! "sds"
    = Some (Finite sds) →
    assoc "lambda_sds" (cfg_loss (cfg s)) = Some v_sds →
    assoc "lambda_orient" (cfg_loss (cfg s)) = Some v_orient →
    assoc "lambda_sparsity" (cfg_loss (cfg s)) = Some v_sparsity →
    assoc "lambda_opaque" (cfg_loss (cfg s)) = Some v_opaque →
    assoc "lambda_shape" (cfg_loss (cfg s)) = Some v_shape →
    C (global_step s) v_orient <= 0 →
    C (global_step s) v_shape <= 0 →
    training_step batch batch_idx s
    = (Ok {["loss" :=
              Finite (sds * C (global_step s) v_sds
                      + sparsity_mean opacity * C (global_step s) v_sparsity
                      + opaque_mean opacity * C (global_step s) v_opaque)]},
       with_trace
         (trace s
          ++ [Rendered; Encoded; GuidanceQueried;
              Logged "train/loss_sparsity" (Finite (sparsity_mean opacity));
              Logged "train/loss_opaque" (Finite (opaque_mean opacity))]
          ++ param_logs (global_step s) (cfg_loss (cfg s))) s).
Proof.
  intros s batch batch_idx p g comp_rgb opacity sds v1 v2 v3 v4 v5
    Hp Hg Hrgb Ho Hn Hsds H1 H2 H3 H4 H5 Horient Hshape.
  rewrite (training_step_plain batch batch_idx s p g comp_rgb (Finite sds)
             (Finite (sparsity_mean opacity)) (Finite (opaque_mean opacity))
             v1 v2 v3 v4 v5); try done.
  - simpl. do 4 f_equal. lra.
  - by apply loss_sparsity_value.
  - by apply loss_opaque_value.
  - lra.
  - lra.
Qed.

End Bounds.

(** ** The files of validation and test *)

Lemma append_cons (c : ascii) (x y : string) :
  String c x +:+ y = String c (x +:+ y).
Proof. done. Qed.

Lemma append_nil (y : string) : "" +:+ y = y.
Proof. done. Qed.

Lemma string_of_uint_digits (d : Decimal.uint) :
  all_digits (NilEmpty.string_of_uint d) = true.
Proof. induction d; simpl; done. Qed.

Lemma str_int_digits (n : nat) : all_digits (str_int n) = true.
Proof. apply string_of_uint_digits. Qed.

Lemma str_int_nonempty (n : nat) : str_int n ≠ "".
Proof.
  unfold str_int.
  assert (Hn : Nat.to_uint n ≠ Decimal.Nil).
  { rewrite <- (DecimalNat.Unsigned.of_to n) at 1.
    rewrite DecimalNat.Unsigned.to_of. apply DecimalFacts.unorm_nonnil. }
  by destruct (Nat.to_uint n).
Qed.

Lemma str_int_inj (n m : nat) : str_int n = str_int m → n = m.
Proof.
  unfold str_int. intros H.
  apply DecimalNat.Unsigned.to_uint_inj.
  apply (f_equal NilEmpty.uint_of_string) in H.
  rewrite !NilEmpty.usu in H. by injection H.
Qed.

(** Digits followed by a character that is no digit: the digits end where
    that character stands. *)
Lemma digits_then_inj (c : ascii) (x y r r' : string) :
  is_digit c = false →
  all_digits x = true → all_digits y = true →
  x +:+ String c r = y +:+ String c r' → x = y ∧ r = r'.
Proof.
  intros Hc. revert y.
  induction x as [|a x IH]; intros [|b y] Hx Hy;
    rewrite ?append_cons, ?append_nil.
  - by intros [= ->].
  - intros [= <- _]. simpl in Hy. by rewrite Hc in Hy.
  - intros [= -> _]. simpl in Hx. by rewrite Hc in Hx.
  - intros [= -> H]. simpl in Hx, Hy.
    apply andb_true_iff in Hx as [_ Hx]. apply andb_true_iff in Hy as [_ Hy].
    destruct (IH y Hx Hy H) as [-> ->]. done.
Qed.

Lemma append_inj_r (x r r' : string) : x +:+ r = x +:+ r' → r = r'.
Proof.
  induction x as [|a x IH]; rewrite ?append_cons, ?append_nil; [done|].
  intros [= H]. by apply IH.
Qed.

Lemma length_append (x y : string) :
  String.length (x +:+ y) = String.length x + String.length y.
Proof.
  induction x as [|a x IH]; rewrite ?append_cons, ?append_nil; [done|].
  simpl. by rewrite IH.
Qed.

Lemma append_png_inj (x y : string) : x +:+ ".png" = y +:+ ".png" → x = y.
Proof.
  intros H.
  apply (f_equal String.length) in H as Hlen.
  rewrite !length_append in Hlen.
  revert y H Hlen. induction x as [|a x IH]; intros [|b y];
    rewrite ?append_cons, ?append_nil; simpl; try done; try lia.
  intros [= -> H] Hlen. f_equal. apply IH; [done|lia].
Qed.

Lemma validation_step_name (batch : Batch) (batch_idx : nat) (s : System)
    (name : string) (imgs : list Image) :
  outcome (validation_step batch batch_idx) s = Ok (name, imgs) →
  name = "it" +:+ str_int (global_step s) +:+ "-" +:+ str_int batch_idx
         +:+ ".png".
Proof.
  unfold validation_step. intros H.
  apply outcome_bind_Ok in H as (out & _ & H).
  destruct (only_emits_forward (λ _, true) batch true eq_refl
              (λ _, eq_refl) s) as (evs & Hevs & _).
  rewrite Hevs in H.
  apply outcome_bind_Ok in H as (step & Hstep & H).
  apply outcome_bind_Ok in H as (imgs' & _ & H).
  apply outcome_ret in H. injection Hstep as <-. by injection H as <- _.
Qed.

Lemma test_step_name (batch : Batch) (batch_idx : nat) (s : System)
    (name : string) (imgs : list Image) :
  outcome (test_step batch batch_idx) s = Ok (name, imgs) →
  name = "it" +:+ str_int (global_step s) +:+ "-test/" +:+ str_int batch_idx
         +:+ ".png".
Proof.
  unfold test_step. intros H.
  apply outcome_bind_Ok in H as (out & _ & H).
  destruct (only_emits_forward (λ _, true) batch true eq_refl
              (λ _, eq_refl) s) as (evs & Hevs & _).
  rewrite Hevs in H.
  apply outcome_bind_Ok in H as (step & Hstep & H).
  apply outcome_bind_Ok in H as (imgs' & _ & H).
  apply outcome_ret in H. injection Hstep as <-. by injection H as <- _.
Qed.

(** X17.  The frames of a test run are where [on_test_epoch_end] looks for
    them.  [on_test_epoch_end] always returns; it assembles the directory
    [it<step>-test] into an mp4 of the same name at 30 frames per second
    and saves the mesh as [mesh.obj].  Every [test_step] that returns at
    the same global step has written its frame into that directory, under
    a name made of the decimal digits of the batch index - at least one -
    followed by [.png], which is what the matcher ["(\d+)\.png"] accepts;
    and different batch indices give different frame names. *)
Theorem test_frames_are_collected :
  ∀ s : System,
    ∃ (sequence : ImgSequence) (mesh : MeshFile),
      on_test_epoch_end s = (Ok (sequence, mesh), s)
      ∧ seq_filename sequence = seq_img_dir sequence
      ∧ seq_save_format sequence = "mp4"
      ∧ seq_fps sequence = 30
      ∧ mesh_filename mesh = "mesh.obj"
      ∧ (∀ (batch : Batch) (batch_idx : nat) (name : string)
           (imgs : list Image),
           outcome (test_step batch batch_idx) s = Ok (name, imgs) →
           name = seq_img_dir sequence +:+ "/" +:+ frame_name batch_idx)
      ∧ (∀ batch_idx : nat,
           frame_name batch_idx = str_int batch_idx +:+ ".png"
           ∧ str_int batch_idx ≠ ""
           ∧ all_digits (str_int batch_idx) = true)
      ∧ (∀ i j : nat, frame_name i = frame_name j → i = j).
Proof.
  intros s.
  exists (mkImgSequence ("it" +:+ str_int (global_step s) +:+ "-test")
                        ("it" +:+ str_int (global_step s) +:+ "-test")
                        "mp4" 30),
    (mkMeshFile "mesh.obj" (isosurface (geometry s)).1
                (isosurface (geometry s)).2).
  split; [reflexivity|]. cbn [seq_filename seq_img_dir seq_save_format
                              seq_fps mesh_filename].
  split_and!; try done.
  - intros batch batch_idx name imgs ->%test_step_name.
    unfold frame_name.
    generalize (str_int (global_step s)) (str_int batch_idx). intros x y.
    rewrite !append_cons, !append_nil.
    do 2 f_equal.
    induction x as [|a x IH]; [done|].
    rewrite !append_cons. by f_equal.
  - intros batch_idx. split_and!; [done|..].
    + apply str_int_nonempty.
    + apply str_int_digits.
  - intros i j H. unfold frame_name in H.
    by apply str_int_inj, append_png_inj.
Qed.

(** X18.  Validation images do not overwrite one another: two validation
    steps that return name the same file only if they were taken at the
    same global step with the same batch index; and a validation step never
    names a file that a test step names. *)
Theorem validation_files_distinct :
  ∀ (s s' : System) (batch batch' : Batch) (batch_idx batch_idx' : nat)
    (name : string) (imgs imgs' : list Image),
    outcome (validation_step batch batch_idx) s = Ok (name, imgs) →
    (outcome (validation_step batch' batch_idx') s' = Ok (name, imgs') →
     global_step s = global_step s' ∧ batch_idx = batch_idx')
    ∧ outcome (test_step batch' batch_idx') s' ≠ Ok (name, imgs').
Proof.
  intros s s' batch batch' batch_idx batch_idx' name imgs imgs'.
  intros ->%validation_step_name. split.
  - intros H%validation_step_name.
    rewrite !append_cons, !append_nil in H. injection H as H.
    apply digits_then_inj in H as [H1 H2];
      [|done|apply str_int_digits..].
    split; [by apply str_int_inj|].
    by apply str_int_inj, append_png_inj.
  - intros H%test_step_name.
    rewrite !append_cons, !append_nil in H. injection H as H.
    apply digits_then_inj in H as [_ H];
      [|done|apply str_int_digits..].
    pose proof (str_int_digits batch_idx) as Hd.
    destruct (str_int batch_idx) as [|a x] eqn:Hs.
    + by apply str_int_nonempty in Hs.
    + rewrite append_cons in H. injection H as -> _. done.
Qed.

(** ** Subscripts and the exported images *)

Lemma foldl_offset (s ix : list nat) (acc : nat) :
  length ix = length s →
  foldl (λ acc ni, acc * ni.1 + ni.2) acc (zip s ix)
  = acc * prod_shape s + offset s ix.
Proof.
  revert ix acc. induction s as [|n s IH]; intros [|i ix] acc Hlen;
    simplify_eq/=; [unfold offset; simpl; lia|].
  unfold offset. simpl. rewrite !IH by done. lia.
Qed.

Lemma indices_length (s ix : list nat) :
  ix ∈ indices s → length ix = length s.
Proof.
  revert ix. induction s as [|n s IH]; intros ix; simpl.
  - by intros ->%list_elem_of_singleton.
  - intros (i & (ix' & -> & Hix')%list_elem_of_fmap & _)%list_elem_of_bind.
    simpl. f_equal. by apply IH.
Qed.

Lemma bind_seq_block (n m : nat) :
  (seq 0 n ≫= λ i, (λ k, i * m + k) <$> seq 0 m) = seq 0 (n * m).
Proof.
  induction n as [|n IH]; [done|].
  rewrite seq_S, bind_app, IH. simpl. rewrite app_nil_r.
  rewrite (Nat.add_comm m (n * m)), seq_app. f_equal.
  change (λ k, n * m + k) with (Nat.add (n * m)).
  rewrite fmap_add_seq. f_equal. lia.
Qed.

(** The multi-indices of a shape come in the order of their offsets. *)
Lemma offset_indices (s : list nat) :
  offset s <$> indices s = seq 0 (prod_shape s).
Proof.
  induction s as [|n s IH]; [done|].
  cbn [indices]. change (prod_shape (n :: s)) with (n * prod_shape s).
  rewrite <- bind_seq_block.
  generalize (seq 0 n). intros l.
  induction l as [|i l IHl]; [done|].
  rewrite !bind_cons, fmap_app, IHl. f_equal.
  rewrite <- IH, <- !list_fmap_compose.
  apply list_fmap_ext. intros j ix Hix. simpl.
  unfold offset at 1. simpl.
  rewrite foldl_offset; [lia|].
  apply indices_length. by eapply list_elem_of_lookup_2.
Qed.

Lemma lookup_total_seq (l : list R) (m : nat) :
  m ≤ length l → (λ k, l !!! k) <$> seq 0 m = take m l.
Proof.
  intros Hm. apply list_eq. intros i.
  rewrite list_lookup_fmap.
  destruct (decide (i < m)) as [Hi|Hi].
  - rewrite lookup_seq_lt by done. simpl.
    rewrite lookup_take_lt by done.
    destruct (lookup_lt_is_Some_2 l i) as [x Hx]; [lia|].
    by rewrite (list_lookup_total_correct _ _ _ Hx).
  - rewrite lookup_seq_ge by lia. simpl.
    symmetry. apply lookup_ge_None. rewrite length_take. lia.
Qed.

(** [t[0]] is the first element of the batch. *)
Lemma tensor_getitem_first (t : Tensor) (n : nat) (rest : list nat) :
  shape t = S n :: rest → well_formed t →
  tensor_getitem [At 0] t = Ok (first_of_batch t).
Proof.
  intros Hs Hwf. unfold tensor_getitem, first_of_batch. rewrite Hs.
  cbn [index_shape tail]. rewrite decide_True by lia.
  unfold bind, result_bind, rbind. do 2 f_equal.
  rewrite <- lookup_total_seq.
  2:{ unfold well_formed in Hwf. rewrite Hwf, Hs. simpl. lia. }
  rewrite <- offset_indices, <- list_fmap_compose.
  apply list_fmap_ext. intros j ix Hix. reflexivity.
Qed.

(** [t[0, :, :, 0]] reads the first channel of the first element. *)
Lemma tensor_getitem_first_channel (t : Tensor) (n h w c : nat) :
  shape t = [S n; h; w; S c] →
  tensor_getitem [At 0; All; All; At 0] t
  = Ok (mkTensor [h; w] (every (S c) (h * w) (data t))).
Proof.
  intros Hs. unfold tensor_getitem, every. rewrite Hs.
  cbn [index_shape]. rewrite !decide_True by lia.
  unfold bind, result_bind, rbind. cbn [index_shape]. do 2 f_equal.
  replace (h * w) with (prod_shape [h; w]) by (simpl; lia).
  rewrite <- offset_indices, <- list_fmap_compose.
  apply list_fmap_ext. intros j ix Hix.
  apply list_elem_of_lookup_2, indices_length in Hix.
  destruct ix as [|i1 [|i2 [|? ?]]]; try done.
  simpl. f_equal. unfold offset. simpl. lia.
Qed.

(** X19.  What validation and test export.  From a render output whose
    [decoded_rgb] and [opacity] are 4-dimensional batches with at least
    one element, the image list is: the first element of [decoded_rgb] as
    an [rgb] image in HWC layout; then, only if the output has
    [comp_normal], its first element as an [rgb] image with data range
    (0, 1); then the first channel of the first element of [opacity] as a
    [grayscale] image of height by width.  Elements of the batch past the
    first are not exported.  On a batch without elements the subscript
    [[0]] fails with an [IndexError]. *)
Theorem exported_images :
  ∀ (out : gmap string Tensor) (decoded : Tensor),
    out !! "decoded_rgb" = Some decoded →
    (∀ (opacity : Tensor) (n h w c n' h' w' c' : nat),
       shape decoded = [S n; h; w; c] → well_formed decoded →
       out !! "opacity" = Some opacity →
       shape opacity = [S n'; h'; w'; S c'] →
       (∀ normal, out !! "comp_normal" = Some normal →
                  well_formed normal ∧ ∃ m rest, shape normal = S m :: rest) →
       image_grid out
       = Ok ([mkImage "rgb" (first_of_batch decoded)
                [("data_format", KwStr "HWC")]]
             ++ match out !! "comp_normal" with
                | Some normal =>
                    [mkImage "rgb" (first_of_batch normal)
                       [("data_format", KwStr "HWC");
                        ("data_range", KwRange 0 1)]]
                | None => []
                end
             ++ [mkImage "grayscale"
                   (mkTensor [h'; w']
                             (every (S c') (h' * w') (data opacity)))
                   [("cmap", KwNone); ("data_range", KwRange 0 1)]]))
    ∧ (∀ rest : list nat,
         shape decoded = 0 :: rest →
         ∃ msg, image_grid out = Raise (IndexError msg)).
Proof.
  intros out decoded Hd. split.
  - intros opacity n h w c n' h' w' c' Hs Hwf Ho Hso Hnormal.
    unfold image_grid, getitem, contains. rewrite Hd, Ho.
    unfold bind at 1 2, result_bind, rbind.
    rewrite (tensor_getitem_first decoded n [h; w; c]) by done.
    destruct (out !! "comp_normal") as [normal|].
    + destruct (Hnormal normal eq_refl) as (Hwf' & m & rest & Hs').
      unfold bind, result_bind, rbind.
      rewrite (tensor_getitem_first normal m rest) by done.
      by rewrite (tensor_getitem_first_channel opacity n' h' w' c').
    + unfold bind, result_bind, rbind.
      by rewrite (tensor_getitem_first_channel opacity n' h' w' c').
  - intros rest Hs.
    unfold image_grid, getitem, tensor_getitem. rewrite Hd.
    unfold bind at 1 2, result_bind, rbind. rewrite Hs.
    cbn [index_shape]. rewrite decide_False by lia. by eexists.
Qed.

(** ** The layouts of [forward] *)

Lemma elem_of_indices (s ix : list nat) :
  ix ∈ indices s ↔ Forall2 lt ix s.
Proof.
  revert ix. induction s as [|n s IH]; intros ix; simpl.
  - rewrite list_elem_of_singleton.
    split; [by intros ->|by intros ->%Forall2_nil_inv_r].
  - rewrite list_elem_of_bind. split.
    + intros (i & (ix' & -> & Hix')%list_elem_of_fmap & Hi).
      apply elem_of_seq in Hi. constructor; [lia|]. by apply IH.
    + intros (i & ix' & Hi & Hix' & ->)%Forall2_cons_inv_r.
      exists i. split; [|apply elem_of_seq; lia].
      apply list_elem_of_fmap. exists ix'. split; [done|]. by apply IH.
Qed.

Lemma indices_lookup_offset (s ix : list nat) :
  ix ∈ indices s → indices s !! offset s ix = Some ix.
Proof.
  intros (k & Hk)%list_elem_of_lookup_1.
  pose proof (offset_indices s) as Hoff.
  apply (f_equal (λ l, l !! k)) in Hoff.
  rewrite list_lookup_fmap, Hk in Hoff. simpl in Hoff.
  destruct (decide (k < prod_shape s)) as [Hlt|Hge].
  - rewrite lookup_seq_lt in Hoff by done. injection Hoff as ->. done.
  - by rewrite lookup_seq_ge in Hoff by lia.
Qed.

Lemma fmap_lookup_total_offset (f : list nat → R) (s ix : list nat) :
  ix ∈ indices s → (f <$> indices s) !!! offset s ix = f ix.
Proof.
  intros Hix. apply list_lookup_total_correct.
  by rewrite list_lookup_fmap, indices_lookup_offset.
Qed.

Lemma permute_nchw (t : Tensor) (n h w c : nat) :
  shape t = [n; h; w; c] →
  permute [0; 3; 1; 2] t
  = Ok (mkTensor [n; c; h; w]
          ((λ ix, data t !!! offset [n; h; w; c]
                    [ix !!! 0; ix !!! 2; ix !!! 3; ix !!! 1])
             <$> indices [n; c; h; w])).
Proof.
  intros Hs. unfold permute. rewrite Hs.
  rewrite decide_True; [done|].
  simpl. apply (Permutation_cons eq_refl).
  etrans; [|apply (Permutation_cons_append [1; 2] 3)]. done.
Qed.

Lemma permute_nhwc (t : Tensor) (n c h w : nat) :
  shape t = [n; c; h; w] →
  permute [0; 2; 3; 1] t
  = Ok (mkTensor [n; h; w; c]
          ((λ ix, data t !!! offset [n; c; h; w]
                    [ix !!! 0; ix !!! 3; ix !!! 1; ix !!! 2])
             <$> indices [n; h; w; c])).
Proof.
  intros Hs. unfold permute. rewrite Hs.
  rewrite decide_True; [done|].
  simpl. apply (Permutation_cons eq_refl).
  symmetry. apply (Permutation_cons_append [2; 3] 1).
Qed.

(** X20.  The two layout conversions of [forward] undo one another.  On a
    4-dimensional tensor of shape [n, h, w, c] with all its entries,
    [permute(0, 3, 1, 2)] gives the shape [n, c, h, w] the decoder reads,
    and [permute(0, 2, 3, 1)] of that is the tensor again; hence, outside
    refinement mode, with a decoder that hands its latents back,
    [forward] with decoding returns [comp_rgb] itself as [decoded_rgb]. *)
Theorem forward_layout_round_trip :
  ∀ (t : Tensor) (n h w c : nat),
    shape t = [n; h; w; c] → well_formed t →
    (∃ x, permute [0; 3; 1; 2] t = Ok x
          ∧ shape x = [n; c; h; w]
          ∧ numel x = numel t
          ∧ permute [0; 2; 3; 1] x = Ok t)
    ∧ ∀ (s : System) (batch : Batch) (g : Guidance),
        cfg_refinement (cfg s) = false →
        guidance s = Some g →
        (∀ latents, decode_latents g latents = latents) →
        renderer s batch !! "comp_rgb" = Some t →
        outcome (forward batch true) s
        = Ok (<["decoded_rgb" := t]> (renderer s batch)).
Proof.
  intros t n h w c Hs Hwf.
  assert (Hback : ∃ x, permute [0; 3; 1; 2] t = Ok x
                       ∧ shape x = [n; c; h; w]
                       ∧ numel x = numel t
                       ∧ permute [0; 2; 3; 1] x = Ok t).
  { eexists. split; [by apply permute_nchw|]. split; [done|]. split.
    - unfold numel. cbn [data]. rewrite length_fmap.
      rewrite <- (length_fmap (offset [n; c; h; w])), offset_indices.
      rewrite length_seq. unfold well_formed in Hwf. rewrite Hwf, Hs.
      simpl. lia.
    - rewrite (permute_nhwc _ n c h w) by done. cbn [data].
      destruct t as [sh dt]. simpl in Hs, Hwf. subst sh. f_equal. f_equal.
      unfold well_formed in Hwf. simpl in Hwf.
      transitivity (take (prod_shape [n; h; w; c]) dt);
        [|apply take_ge; simpl; lia].
      rewrite <- lookup_total_seq by (simpl; lia).
      rewrite <- offset_indices, <- list_fmap_compose.
      apply list_fmap_ext. intros j ix Hix.
      apply list_elem_of_lookup_2, elem_of_indices in Hix.
      apply Forall2_cons_inv_r in Hix as (i1 & ix1 & H1 & Hix & ->).
      apply Forall2_cons_inv_r in Hix as (i2 & ix2 & H2 & Hix & ->).
      apply Forall2_cons_inv_r in Hix as (i3 & ix3 & H3 & Hix & ->).
      apply Forall2_cons_inv_r in Hix as (i4 & ix4 & H4 & Hix & ->).
      apply Forall2_nil_inv_r in Hix as ->.
      cbn [data compose].
      rewrite fmap_lookup_total_offset.
      + reflexivity.
      + apply elem_of_indices. simpl. repeat constructor; done. }
  split; [exact Hback|].
  intros s batch g Href Hg Hid Hrgb.
  destruct Hback as (x & Hx & _ & _ & Hx').
  destruct s as [cf ge ma ba r g' pp sl gs tr]; simpl in *. subst g'.
  unfold forward, outcome, bind, M_bind, mbind, gets, emit, modify, lift,
    raise, ret, getitem; simpl.
  rewrite Href, Hrgb. simpl. rewrite Hx. simpl. rewrite Hid, Hx'. done.
Qed.

(** ** Starting a fit more than once *)

(** X21.  Every [on_fit_start] constructs a prompt processor afresh, but
    only the first constructs a guidance model: [n] fit starts in a row
    all return, construct [n] prompt processors, and construct one
    guidance model if there was none and [n] is not 0, none otherwise;
    afterwards both attributes are set. *)
Theorem on_fit_start_repeated :
  ∀ (s : System) (n : nat),
    let s' := after (repeated n on_fit_start) s in
    outcome (repeated n on_fit_start) s = Ok tt
    ∧ occurrences is_NewPromptProcessor (trace s')
      = occurrences is_NewPromptProcessor (trace s) + n
    ∧ constructions s'
      = constructions s
        + (if guidance s is Some _ then 0 else if n is 0 then 0 else 1)
    ∧ (n ≠ 0 → is_Some (prompt_processor s') ∧ is_Some (guidance s')).
Proof.
  intros s n. revert s. induction n as [|n IH]; intros s; cbv zeta.
  - change (after (repeated 0 on_fit_start) s) with s.
    split_and!; [done|lia| |done].
    destruct (guidance s); lia.
  - destruct (on_fit_start_effect s) as (Hok & Hg & Htr & _).
    destruct (on_fit_start_frame s) as (_ & Hpp & Hgs).
    cbn [repeated]. rewrite after_bind. unfold outcome at 1.
    rewrite (bind_Ok _ _ _ _ Hok). rewrite Hok.
    fold (outcome (repeated n on_fit_start) (after on_fit_start s)).
    destruct (IH (after on_fit_start s)) as (H1 & H2 & H3 & H4).
    split_and!.
    + done.
    + rewrite H2, Htr, occurrences_app. simpl.
      destruct (guidance s); simpl; lia.
    + assert (Hc : constructions (after on_fit_start s)
                   = constructions s + (if guidance s is Some _ then 0 else 1)).
      { unfold constructions. rewrite Htr, occurrences_app.
        destruct (guidance s); simpl; lia. }
      rewrite Hg, Hc in H3. rewrite H3. destruct (guidance s); simpl; lia.
    + intros _. destruct n as [|n]; [|by apply H4].
      exact (conj Hpp Hgs).
Qed.

End LatentNeRF.

(** * The properties at work on a small scene *)

Module Sample.

(** A guidance model with a constant distillation loss and a decoder that
    negates its latents. *)
Definition guidance_model : @Guidance unit :=
  mkGuidance (λ _ _ _, {["sds" := Finite 1]}) (pointwise Ropp).

(** A registry whose renderer hands back the batch as the render output. *)
Definition registry
  : @Registry (gmap string Tensor) unit unit unit unit unit :=
  mkRegistry (λ _ _, tt) (λ _ _, tt) (λ _ _, tt)
             (λ _ _ _ _ _ batch, batch)
             (λ _ _, guidance_model)
             (λ _ _ _, tt)
             (λ _ _ _, Finite 1).

(** Constant schedules. *)
Definition C (step : nat) (v : R) : R := v.

Definition config (guide_shape : option string) (refinement : bool)
    (lambda_orient : R) : @Config unit R :=
  mkConfig "implicit-volume" tt "nomaterial" tt "solid-color-background" tt
           "nerf-volume-renderer" tt "stable-diffusion-guidance" tt
           "dreamfusion-prompt-processor" tt guide_shape refinement
           [("lambda_sds", 1%R); ("lambda_orient", lambda_orient);
            ("lambda_sparsity", 1%R); ("lambda_opaque", 1%R);
            ("lambda_shape", 1%R)].

(** The system when training begins. *)
Definition fitting (refinement : bool) (lambda_orient : R) : System :=
  after (on_fit_start registry)
        (configure registry (config (Some "shape.obj") refinement lambda_orient) 0).

Definition rgb : Tensor := mkTensor [1; 1; 1; 2] [1; 2]%R.
Definition half_opaque : Tensor := mkTensor [1; 1; 2; 1] [1 / 2; 0]%R.

(** One pixel with two channels, no normals. *)
Definition flat : gmap string Tensor :=
  <["comp_rgb" := rgb]> (<["opacity" := half_opaque]> ∅).

(** Two samples with normals but without ray directions. *)
Definition no_t_dirs : gmap string Tensor :=
  <["weights" := mkTensor [2; 1] [1; 1]%R]>
    (<["normal" := mkTensor [2; 3] [0; 0; 1; 0; 1; 0]%R]> flat).

(** Two samples with all that the orientation loss reads. *)
Definition oriented : gmap string Tensor :=
  <["t_dirs" := mkTensor [2; 3] [0; 0; 1; 0; -1; 0]%R]> no_t_dirs.

(** A render that produced no sample point. *)
Definition pointless : gmap string Tensor :=
  <["points" := mkTensor [0; 3] []]>
    (<["density" := mkTensor [0; 1] []]> flat).

(** A configuration without guide shape whose conditional terms are
    switched off. *)
Definition plain_config : @Config unit R :=
  mkConfig "implicit-volume" tt "nomaterial" tt "solid-color-background" tt
           "nerf-volume-renderer" tt "stable-diffusion-guidance" tt
           "dreamfusion-prompt-processor" tt None false
           [("lambda_sds", 2%R); ("lambda_orient", 0%R);
            ("lambda_sparsity", 1%R); ("lambda_opaque", 1%R);
            ("lambda_shape", 0%R)].

(** The system under that configuration when training begins, at global
    step 7. *)
Definition plain : System :=
  after (on_fit_start registry) (configure registry plain_config 7).

(** A render without rays. *)
Definition no_rays : gmap string Tensor :=
  <["comp_rgb" := rgb]> (<["opacity" := mkTensor [0; 1; 1; 1] []]> ∅).

(** What validation exports of [flat] in refinement mode. *)
Definition grid : list Image :=
  [mkImage "rgb" (mkTensor [1; 1; 2] [1; 2]%R)
     [("data_format", KwStr "HWC")];
   mkImage "grayscale" (mkTensor [1; 2] [1 / 2; 0]%R)
     [("cmap", KwNone); ("data_range", KwRange 0 1)]].

End Sample.

(** ** [forward] *)

Lemma forward_decode_witness :
  outcome (forward Sample.flat true) (Sample.fitting true 1)
  = Ok (<["decoded_rgb" := Sample.rgb]> Sample.flat)
  ∧ outcome (forward Sample.flat true) (Sample.fitting false 1)
    = Ok (<["decoded_rgb" := mkTensor [1; 1; 1; 2] [Ropp 1; Ropp 2]]>
            Sample.flat).
Proof.
  split.
  - apply (proj1 (forward_decode (Sample.fitting true 1) Sample.flat
                    Sample.rgb eq_refl)).
    reflexivity.
  - apply (proj2 (forward_decode (Sample.fitting false 1) Sample.flat
                    Sample.rgb eq_refl) eq_refl Sample.guidance_model
                 (mkTensor [1; 2; 1; 1] [1; 2]%R)); reflexivity.
Defined.

(** ** The orientation term *)

Lemma orientation_term_validation_witness :
  outcome (training_step Sample.C Sample.flat 0) (Sample.fitting false 1)
  = Raise (ValueError no_normal)
  ∧ trace (after (training_step Sample.C Sample.flat 0)
                 (Sample.fitting false 1))
    = trace (Sample.fitting false 1) ++ [Rendered; Encoded; GuidanceQueried].
Proof.
  apply (proj1 (orientation_term_validation Sample.C (Sample.fitting false 1)
                  Sample.flat 0 1%R eq_refl)).
  - unfold Sample.C. lra.
  - exact I.
  - reflexivity.
Defined.

(** C3 as stated fails: with ["normal"] present and ["t_dirs"] absent, the
    step ends with the [KeyError] of the subscript, which is not the
    validation error. *)
Lemma missing_t_dirs_is_a_key_error :
  outcome (training_step Sample.C Sample.no_t_dirs 0) (Sample.fitting false 1)
  = Raise (KeyError "t_dirs")
  ∧ ∀ msg : string,
      outcome (training_step Sample.C Sample.no_t_dirs 0)
              (Sample.fitting false 1)
      ≠ Raise (ValueError msg).
Proof.
  assert (Hrun : training_step Sample.C Sample.no_t_dirs 0
                   (Sample.fitting false 1)
                 = (Raise (KeyError "t_dirs"),
                    after (guidance_term Sample.C Sample.no_t_dirs)
                          (Sample.fitting false 1))).
  { apply training_step_raises_in_orientation; [exact I|].
    intros loss.
    apply (orientation_term_no_t_dirs Sample.C Sample.no_t_dirs loss 1%R);
      [reflexivity|unfold Sample.C; lra|by eexists|reflexivity]. }
  unfold outcome. rewrite Hrun. by split.
Qed.

Lemma half_opaque_count : positive_count Sample.half_opaque = 1.
Proof.
  unfold positive_count, entry. simpl.
  rewrite bool_decide_true, bool_decide_false by lra. done.
Qed.

Lemma orientation_loss_formula_witness :
  loss_orient Sample.oriented
  = Ok (Finite (orientation_sum 2 3 (mkTensor [2; 1] [1; 1]%R)
                  (mkTensor [2; 3] [0; 0; 1; 0; 1; 0]%R)
                  (mkTensor [2; 3] [0; 0; 1; 0; -1; 0]%R)
                / INR (positive_count Sample.half_opaque)))
  ∧ orientation_term Sample.C Sample.oriented (Finite 0)
      (Sample.fitting false 1)
    = (Ok (sadd (Finite 0)
             (smul (Finite (orientation_sum 2 3 (mkTensor [2; 1] [1; 1]%R)
                              (mkTensor [2; 3] [0; 0; 1; 0; 1; 0]%R)
                              (mkTensor [2; 3] [0; 0; 1; 0; -1; 0]%R)
                            / INR (positive_count Sample.half_opaque)))
                   (Finite 1))),
       record (Logged "train/loss_orient"
                 (Finite (orientation_sum 2 3 (mkTensor [2; 1] [1; 1]%R)
                            (mkTensor [2; 3] [0; 0; 1; 0; 1; 0]%R)
                            (mkTensor [2; 3] [0; 0; 1; 0; -1; 0]%R)
                          / INR (positive_count Sample.half_opaque))))
              (Sample.fitting false 1)).
Proof.
  apply (orientation_loss_formula Sample.C (Sample.fitting false 1)
           Sample.oriented (Finite 0) 1%R 2 3
           (mkTensor [2; 1] [1; 1]%R)
           (mkTensor [2; 3] [0; 0; 1; 0; 1; 0]%R)
           (mkTensor [2; 3] [0; 0; 1; 0; -1; 0]%R)
           Sample.half_opaque); try reflexivity.
  - unfold Sample.C. lra.
  - rewrite half_opaque_count. lia.
Defined.

(** On that scene the first sample faces along its ray and the second
    against it: the sum is the weight of the first. *)
Example orientation_sum_oriented :
  orientation_sum 2 3 (mkTensor [2; 1] [1; 1]%R)
    (mkTensor [2; 3] [0; 0; 1; 0; 1; 0]%R)
    (mkTensor [2; 3] [0; 0; 1; 0; -1; 0]%R) = 1%R.
Proof.
  unfold orientation_sum, row_dot, positive_part, entry. simpl.
  unfold Rmax.
  repeat (match goal with
          | |- context [Rle_dec ?a ?b] => destruct (Rle_dec a b)
          end); lra.
Qed.

(** ** The regularizers *)




(** ** The shape term *)

(** A render with one sample point: the shape term invokes the evaluator. *)
Example shape_term_evaluates :
  shape_evaluations
    (after (shape_term Sample.C
              (<["points" := mkTensor [1; 3] [0; 0; 0]%R]>
                 (<["density" := mkTensor [1; 1] [1%R]]> Sample.flat))
              (Finite 0))
           (Sample.fitting false 0))
  = 1.
Proof.
  unfold after.
  rewrite (shape_term_due Sample.C _ _ 1%R (mkTensor [1; 3] [0; 0; 0]%R)
             (mkTensor [1; 1] [1%R]) (λ _ _, Finite 1) 0 [3]);
    [reflexivity..| |reflexivity|reflexivity|reflexivity|reflexivity].
  unfold Sample.C. lra.
Qed.

Lemma shape_term_needs_points_witness :
  training_step Sample.C Sample.pointless 0 (Sample.fitting false 0)
  = training_step_with Sample.C (orientation_term Sample.C) no_term
      Sample.pointless 0 (Sample.fitting false 0)
  ∧ shape_evaluations (after (training_step Sample.C Sample.pointless 0)
                             (Sample.fitting false 0))
    = shape_evaluations (Sample.fitting false 0).
Proof.
  apply (proj1 (shape_term_needs_points Sample.C (Sample.fitting false 0)
                  Sample.pointless 0) 1%R (mkTensor [0; 3] []) [3]);
    reflexivity.
Defined.

(** ** The guidance model over a run *)

Lemma setup_guidance_schedule_witness :
  guidance (after (run Sample.registry Sample.C
                     [ValidationStart; Forward Sample.flat true; TestStart])
                  (configure Sample.registry (Sample.config None true 1) 0))
  = None
  ∧ constructions
      (after (run Sample.registry Sample.C
                [ValidationStart; Forward Sample.flat true; TestStart])
             (configure Sample.registry (Sample.config None true 1) 0))
    = 0
  ∧ setup_calls
      (after (run Sample.registry Sample.C
                [ValidationStart; Forward Sample.flat true; TestStart])
             (configure Sample.registry (Sample.config None true 1) 0))
    = 0.
Proof.
  exact (proj1 (proj2 (proj2 (proj2 (proj2
           (setup_guidance_schedule Sample.registry Sample.C
              (configure Sample.registry (Sample.config None true 1) 0))))))
           [ValidationStart; Forward Sample.flat true; TestStart]
           eq_refl eq_refl).
Defined.

(** C10 as stated fails: in refinement mode [on_fit_start] constructs the
    guidance model all the same, and the training step queries it. *)
Lemma refinement_constructs_guidance :
  cfg_refinement (cfg (Sample.fitting true 1)) = true
  ∧ guidance (Sample.fitting true 1) = Some Sample.guidance_model
  ∧ constructions (Sample.fitting true 1) = 1
  ∧ trace (after (guidance_term Sample.C Sample.flat) (Sample.fitting true 1))
    = [NewPromptProcessor; SetupGuidance; NewGuidance;
       Rendered; Encoded; GuidanceQueried].
Proof. by split_and!. Qed.

(** ** The checkpoint and [forward] *)

Lemma on_save_checkpoint_frame_witness :
  on_save_checkpoint (∅ : gmap string CheckpointValue)
  = Raise (KeyError "state_dict").
Proof. apply (proj1 (on_save_checkpoint_frame ∅)). reflexivity. Defined.

Lemma forward_decode_failures_witness :
  forward Sample.flat true
          (configure Sample.registry (Sample.config None false 1) 0)
  = (Raise (AttributeError "decode_latents"),
     record Rendered
            (configure Sample.registry (Sample.config None false 1) 0)).
Proof.
  apply (proj1 (forward_decode_failures
                  (configure Sample.registry (Sample.config None false 1) 0)
                  Sample.flat)); reflexivity.
Defined.

Lemma forward_output_witness :
  (is_Some ((<["decoded_rgb" := Sample.rgb]> Sample.flat) !! "decoded_rgb")
   ∧ is_Some ((<["decoded_rgb" := Sample.rgb]> Sample.flat) !! "comp_rgb"))
  ∧ after (forward Sample.flat true) (Sample.fitting true 1)
    = with_trace
        (trace (Sample.fitting true 1)
         ++ Rendered
            :: (if true && negb (cfg_refinement (cfg (Sample.fitting true 1)))
                then [LatentsDecoded] else []))
        (Sample.fitting true 1).
Proof.
  destruct (forward_output (Sample.fitting true 1) Sample.flat true
              (<["decoded_rgb" := Sample.rgb]> Sample.flat) eq_refl)
    as (_ & _ & H3 & H4).
  exact (conj (H3 eq_refl) H4).
Defined.

Lemma forward_layout_round_trip_witness :
  ∃ x, permute [0; 3; 1; 2] Sample.rgb = Ok x
       ∧ shape x = [1; 2; 1; 1]
       ∧ numel x = numel Sample.rgb
       ∧ permute [0; 2; 3; 1] x = Ok Sample.rgb.
Proof.
  apply (proj1 (@forward_layout_round_trip (gmap string Tensor) unit unit R
                  unit unit unit Sample.rgb 1 1 1 2 eq_refl eq_refl)).
Defined.

(** ** Runs *)

Lemma training_needs_fit_start_witness :
  training_step Sample.C Sample.flat 0
    (after (run Sample.registry Sample.C
              [ValidationStart; Forward Sample.flat true])
           (configure Sample.registry (Sample.config None false 1) 0))
  = (Raise (AttributeError "prompt_processor"),
     record Rendered
       (after (run Sample.registry Sample.C
                 [ValidationStart; Forward Sample.flat true])
              (configure Sample.registry (Sample.config None false 1) 0))).
Proof.
  apply (training_needs_fit_start Sample.registry Sample.C
           (Sample.config None false 1) 0
           [ValidationStart; Forward Sample.flat true] Sample.flat 0).
  reflexivity.
Defined.

Lemma shape_loss_needs_guide_shape_witness :
  shape_loss (after (run Sample.registry Sample.C [FitStart])
                    (configure Sample.registry (Sample.config None false 0) 0))
  = None.
Proof.
  apply (shape_loss_needs_guide_shape Sample.registry Sample.C
           (Sample.config None false 0) 0 [FitStart] Sample.flat 0 eq_refl).
Defined.

(** ** The loss of a step *)

Lemma training_step_loss_witness :
  training_step Sample.C Sample.flat 0 Sample.plain
  = (Ok {["loss" :=
            Finite (1 * Sample.C (global_step Sample.plain) 2
                    + sparsity_mean Sample.half_opaque
                      * Sample.C (global_step Sample.plain) 1
                    + opaque_mean Sample.half_opaque
                      * Sample.C (global_step Sample.plain) 1)]},
     with_trace
       (trace Sample.plain
        ++ [Rendered; Encoded; GuidanceQueried;
            Logged "train/loss_sparsity"
                   (Finite (sparsity_mean Sample.half_opaque));
            Logged "train/loss_opaque"
                   (Finite (opaque_mean Sample.half_opaque))]
        ++ param_logs Sample.C (global_step Sample.plain)
                      (cfg_loss (cfg Sample.plain))) Sample.plain).
Proof.
  apply (training_step_loss Sample.C Sample.plain Sample.flat 0
           (λ _, tt) Sample.guidance_model Sample.rgb Sample.half_opaque
           1 2 0 1 1 0)%R; try reflexivity.
  unfold numel. simpl. lia.
Defined.

Lemma no_rays_step :
  outcome (training_step Sample.C Sample.no_rays 0) Sample.plain
  = Ok {["loss" :=
           sadd (sadd (sadd (Finite 0.0) (smul (Finite 1) (Finite 2)))
                      (smul NonFinite (Finite 1)))
                (smul NonFinite (Finite 1))]}.
Proof.
  unfold outcome.
  rewrite (training_step_plain Sample.C Sample.no_rays 0 Sample.plain
             (λ _, tt) Sample.guidance_model Sample.rgb (Finite 1)
             NonFinite NonFinite 2 0 1 1 0)%R;
    first [reflexivity | unfold Sample.C; lra].
Qed.

Lemma non_finite_loss_is_returned_witness :
  outcome (training_step Sample.C Sample.no_rays 0) Sample.plain
  = Ok {["loss" := NonFinite]}.
Proof.
  exact (eq_trans no_rays_step
           (f_equal Ok
              (proj1 (non_finite_loss_is_returned Sample.C Sample.plain
                        Sample.no_rays 0 _ no_rays_step)
                     (mkTensor [0; 1; 1; 1] []) eq_refl eq_refl))).
Defined.

(** ** The regularizers *)

Lemma orientation_loss_sign_witness :
  ∃ l : R,
    loss_orient Sample.oriented = Ok (Finite l)
    ∧ (0 <= l)%R
    ∧ ((∀ i, i < 2 →
             Rle (row_dot 3 (mkTensor [2; 3] [0; 0; 1; 0; 1; 0]%R)
                         (mkTensor [2; 3] [0; 0; 1; 0; -1; 0]%R) i) 0) →
       l = 0%R).
Proof.
  apply (orientation_loss_sign Sample.oriented 2 3
           (mkTensor [2; 1] [1; 1]%R)
           (mkTensor [2; 3] [0; 0; 1; 0; 1; 0]%R)
           (mkTensor [2; 3] [0; 0; 1; 0; -1; 0]%R)
           Sample.half_opaque); try reflexivity.
  - rewrite half_opaque_count. lia.
  - intros [|[|i]] Hi; unfold entry; simpl; [lra|lra|lia].
Defined.

(** ** Validation and test *)

Lemma validation_of_flat :
  outcome (validation_step Sample.flat 0) (Sample.fitting true 1)
  = Ok ("it0-0.png", Sample.grid).
Proof. reflexivity. Qed.

Lemma validation_files_distinct_witness :
  global_step (Sample.fitting true 1) = global_step (Sample.fitting true 1)
  ∧ 0 = 0.
Proof.
  exact (proj1 (validation_files_distinct
                  (Sample.fitting true 1) (Sample.fitting true 1)
                  Sample.flat Sample.flat 0 0 "it0-0.png"
                  Sample.grid Sample.grid validation_of_flat)
               validation_of_flat).
Defined.

Lemma exported_images_witness :
  image_grid (<["decoded_rgb" := Sample.rgb]> Sample.flat)
  = Ok ([mkImage "rgb" (first_of_batch Sample.rgb)
           [("data_format", KwStr "HWC")]]
        ++ match (<["decoded_rgb" := Sample.rgb]> Sample.flat)
                 !! "comp_normal" with
           | Some normal =>
               [mkImage "rgb" (first_of_batch normal)
                  [("data_format", KwStr "HWC");
                   ("data_range", KwRange 0 1)]]
           | None => []
           end
        ++ [mkImage "grayscale"
              (mkTensor [1; 2] (every 1 (1 * 2) (data Sample.half_opaque)))
              [("cmap", KwNone); ("data_range", KwRange 0 1)]]).
Proof.
  apply (proj1 (exported_images
                  (<["decoded_rgb" := Sample.rgb]> Sample.flat)
                  Sample.rgb (lookup_insert_eq _ _ _))
               Sample.half_opaque 0 1 1 2 0 1 2 0); try reflexivity.
  intros normal H. exfalso. revert H.
  unfold Sample.flat. by rewrite !lookup_insert_ne, lookup_empty.
Defined.
